(** * Jobify server actions (utils/actions.ts): a shallow embedding

    The server actions of the job tracker are embedded as functions in a
    small state-and-exception monad over the server's world: the Clerk
    session, the clock, the [Job] table reached through Prisma, and a
    schedule of storage faults.  Thrown values (Prisma errors, Zod errors
    and Next.js' [redirect], which is a throw) are the [Exn] type. *)

From Stdlib Require Import ZArith String Ascii List Lia Sorting.Sorted Permutation.
From stdpp Require Import base gmap strings list sorting.

Local Open Scope string_scope.
Local Open Scope list_scope.
Local Open Scope Z_scope.

(** ** JavaScript values used by the actions *)

(** A [Date] is kept as the calendar fields dayjs reads from it in the
    server's time zone ([$y], [$M] counted from 0, [$D]) and the time of day
    in milliseconds.  The zone has a fixed offset, so instants compare as
    these tuples, lexicographically. *)
Record Date := mkDate { year : Z; month : Z; day : Z; tod : Z }.

Definition Date_compare (a b : Date) : comparison :=
  match year a ?= year b with
  | Eq => match month a ?= month b with
          | Eq => match day a ?= day b with
                  | Eq => tod a ?= tod b
                  | c => c
                  end
          | c => c
          end
  | c => c
  end.

Definition Date_leb (a b : Date) : bool :=
  match Date_compare a b with Gt => false | _ => true end.

Definition Date_le (a b : Date) : Prop := Date_leb a b = true.

#[global] Instance Date_le_dec a b : Decision (Date_le a b) :=
  decide (Date_leb a b = true).

(** Calendar fields of a real date: month index 0..11. *)
Definition valid_month (d : Date) : Prop := 0 <= month d <= 11.

(** [String.prototype.toLowerCase] on the ASCII range; other code units are
    left as they are (none of them lower-cases to an ASCII letter of the
    three status names). *)
Definition lower_ascii (c : ascii) : ascii :=
  let n := nat_of_ascii c in
  if ((65 <=? n)%nat && (n <=? 90)%nat)%bool then ascii_of_nat (n + 32) else c.

Fixpoint toLowerCase (s : string) : string :=
  match s with
  | EmptyString => EmptyString
  | String c r => String (lower_ascii c) (toLowerCase r)
  end.

(** [hay.includes(needle)]: exact (case-sensitive) substring test. *)
Fixpoint includes (needle hay : string) : bool :=
  String.prefix needle hay
  || match hay with
     | EmptyString => false
     | String _ r => includes needle r
     end.

(** [s LIKE p] of PostgreSQL, case-sensitive: [%] stands for any run of
    characters, [_] for any one character, and a backslash takes the
    character after it literally.  (A pattern that ends in a lone backslash
    is an error there; the patterns built below end in [%].) *)
Fixpoint like (p s : string) {struct p} : bool :=
  match p with
  | EmptyString => match s with EmptyString => true | String _ _ => false end
  | String c p' =>
      if Ascii.eqb c "%" then
        (fix any (t : string) : bool :=
           like p' t
           || match t with
              | EmptyString => false
              | String _ t' => any t'
              end) s
      else if Ascii.eqb c "_" then
        match s with
        | String _ s' => like p' s'
        | EmptyString => false
        end
      else if Ascii.eqb c "\" then
        match p' with
        | String e p'' =>
            match s with
            | String d s' => Ascii.eqb e d && like p'' s'
            | EmptyString => false
            end
        | EmptyString => false
        end
      else
        match s with
        | String d s' => Ascii.eqb c d && like p' s'
        | EmptyString => false
        end
  end.

(** What [contains: term] asks of a column on PostgreSQL: [LIKE '%term%']
    with the term put into the pattern as it is, so that [%], [_] and the
    backslash in the term act as they do in a pattern. *)
Definition like_contains (term v : string) : bool :=
  like ("%" +:+ term +:+ "%") v.

(** Integers that JavaScript arithmetic keeps exact
    ([Number.isSafeInteger]). *)
Definition safe_integer (z : Z) : Prop := - (2 ^ 53 - 1) <= z <= 2 ^ 53 - 1.

(** Integers the query engine takes for [skip] and [take]: 64 bits,
    signed. *)
Definition fits_int64 (z : Z) : bool := (- 2 ^ 63 <=? z) && (z <=? 2 ^ 63 - 1).

(** JavaScript truthiness of a string: every string but the empty one. *)
Definition truthy (s : string) : bool :=
  match s with EmptyString => false | String _ _ => true end.

(** Numbers that [Math.ceil(count / limit)] can produce. *)
Inductive JsNumber := Int (z : Z) | Infinity | NaN.

(** [Math.ceil(a / b)] for integers [a >= 0] and [b], which the rounding of
    the quotient does not change as long as [a] is a safe integer (a row
    count is); the sign of a zero result is not tracked. *)
Definition ceil_div (a b : Z) : JsNumber :=
  if b =? 0 then (if a =? 0 then NaN else Infinity)
  else Int (- ((- a) / b)).

(** Field values of the object a caller passes to create and update. *)
Inductive Value := VStr (s : string) | VDate (d : Date).

(** ** The Job model (prisma/schema.prisma) *)

Record Job := mkJob {
  id : string;
  clerkId : string;
  createdAt : Date;
  updatedAt : Date;
  position : string;
  company : string;
  location : string;
  status : string;
  mode : string
}.

Definition job_columns : list string :=
  ["id"; "clerkId"; "createdAt"; "updatedAt"; "position"; "company";
   "location"; "status"; "mode"].

(** ** The world of a request and the monad of server actions *)

Inductive Exn :=
| NextRedirect (url : string)
| ZodError (issues : list string)
| PrismaError (code : string).

Inductive Outcome (A : Type) :=
| Ok (a : A)
| Throw (e : Exn).
Arguments Ok {A} a.
Arguments Throw {A} e.

(** [session]: what Clerk's [auth()] resolves as [userId] ([None] for null).
    [clock]: the current instant.  [rows]: the Job table in insertion order.
    [faults]: for each coming storage call, whether the storage layer fails
    on it (calls beyond the schedule succeed).  [uuids], [uuid_next]: the
    source of [@default(uuid())].  [ties]: for each coming [findMany], the
    rank by which the database orders rows of equal [createdAt], an order
    that [orderBy: { createdAt }] leaves open and that may change from one
    query to the next (a query beyond the schedule ranks all rows alike).
    [parseDateTime]: how the query engine reads a DateTime given as a
    string, [None] when it rejects the string. *)
Record Server := mkServer {
  session : option string;
  clock : Date;
  rows : list Job;
  faults : list bool;
  uuids : nat -> string;
  uuid_next : nat;
  ties : list (Job -> Z);
  parseDateTime : string -> option Date
}.

Definition set_rows (r : list Job) (s : Server) : Server :=
  mkServer (session s) (clock s) r (faults s) (uuids s) (uuid_next s)
           (ties s) (parseDateTime s).
Definition set_faults (f : list bool) (s : Server) : Server :=
  mkServer (session s) (clock s) (rows s) f (uuids s) (uuid_next s)
           (ties s) (parseDateTime s).
Definition bump_uuid (s : Server) : Server :=
  mkServer (session s) (clock s) (rows s) (faults s) (uuids s) (S (uuid_next s))
           (ties s) (parseDateTime s).
Definition set_ties (t : list (Job -> Z)) (s : Server) : Server :=
  mkServer (session s) (clock s) (rows s) (faults s) (uuids s) (uuid_next s)
           t (parseDateTime s).

Definition M (A : Type) : Type := Server -> Outcome A * Server.

Definition ret {A} (a : A) : M A := fun s => (Ok a, s).
Definition throw {A} (e : Exn) : M A := fun s => (Throw e, s).
Definition bind {A B} (m : M A) (k : A -> M B) : M B :=
  fun s => match m s with
           | (Ok a, s') => k a s'
           | (Throw e, s') => (Throw e, s')
           end.
(** [try { m } catch (error) { h error }] *)
Definition try_catch {A} (m : M A) (h : Exn -> M A) : M A :=
  fun s => match m s with
           | (Ok a, s') => (Ok a, s')
           | (Throw e, s') => h e s'
           end.

Notation "'let*' x ':=' m 'in' k" := (bind m (fun x => k))
  (at level 10, x name, m at level 100, k at level 200).

(** [redirect(url)] of next/navigation throws and never returns. *)
Definition redirect {A} (url : string) : M A := throw (NextRedirect url).

(** [authenticateAndRedirect]: [!userId] holds for null and for the empty
    string. *)
Definition authenticateAndRedirect : M string :=
  fun s => match session s with
           | Some userId => if truthy userId then ret userId s else redirect "/" s
           | None => redirect "/" s
           end.

(** ** The Prisma client over the Job table *)

(** Every storage call first meets the storage layer, which may fail. *)
Definition storage_call {A} (op : M A) : M A :=
  fun s => match faults s with
           | true :: fs => (Throw (PrismaError "P1001"), set_faults fs s)
           | false :: fs => op (set_faults fs s)
           | [] => op s
           end.

(** String filters.  The datasource is PostgreSQL (README, DATABASE_URL):
    [contains] without [mode: "insensitive"] is a case-sensitive LIKE, and
    with it the same test on the lower-cased pattern and value. *)
Inductive QueryMode := default_mode | insensitive.

Record StringFilter := mkStringFilter { contains : string; query_mode : QueryMode }.

Definition string_filter_matches (f : StringFilter) (v : string) : bool :=
  match query_mode f with
  | default_mode => like_contains (contains f) v
  | insensitive => like_contains (toLowerCase (contains f)) (toLowerCase v)
  end.

Inductive JobFieldWhere :=
| WherePosition (f : StringFilter)
| WhereCompany (f : StringFilter).

Definition field_where_matches (c : JobFieldWhere) (j : Job) : bool :=
  match c with
  | WherePosition f => string_filter_matches f (position j)
  | WhereCompany f => string_filter_matches f (company j)
  end.

Record DateTimeFilter := mkDateTimeFilter { gte : Date; lte : Date }.

(** The part of [Prisma.JobWhereInput] the actions use; the conditions
    present are joined by AND. *)
Record JobWhereInput := mkWhere {
  where_clerkId : option string;
  where_OR : option (list JobFieldWhere);
  where_status : option string;
  where_createdAt : option DateTimeFilter
}.

Definition where_matches (w : JobWhereInput) (j : Job) : bool :=
  match where_clerkId w with Some u => String.eqb (clerkId j) u | None => true end
  && match where_OR w with
     | Some cs => existsb (fun c => field_where_matches c j) cs
     | None => true
     end
  && match where_status w with Some st => String.eqb (status j) st | None => true end
  && match where_createdAt w with
     | Some f => Date_leb (gte f) (createdAt j) && Date_leb (createdAt j) (lte f)
     | None => true
     end.

Inductive SortOrder := asc | desc.

(** [orderBy: { createdAt: o }] *)
Definition ordered (o : SortOrder) (a b : Job) : Prop :=
  match o with
  | asc => Date_le (createdAt a) (createdAt b)
  | desc => Date_le (createdAt b) (createdAt a)
  end.

#[global] Instance ordered_dec o a b : Decision (ordered o a b) :=
  match o with
  | asc => Date_le_dec (createdAt a) (createdAt b)
  | desc => Date_le_dec (createdAt b) (createdAt a)
  end.

(** The order in which one query returns the rows: by [createdAt] as
    [orderBy] asks, and among rows of equal [createdAt] by the rank the
    database gives them for this query. *)
Definition precedes (o : SortOrder) (rank : Job -> Z) (a b : Job) : Prop :=
  match o with
  | asc => Date_le (createdAt a) (createdAt b)
           /\ (Date_le (createdAt b) (createdAt a) -> rank a <= rank b)
  | desc => Date_le (createdAt b) (createdAt a)
            /\ (Date_le (createdAt a) (createdAt b) -> rank a <= rank b)
  end.

#[global] Instance precedes_dec o rank a b : Decision (precedes o rank a b) :=
  match o with
  | asc => (_ : Decision (Date_le (createdAt a) (createdAt b)
                          /\ (Date_le (createdAt b) (createdAt a) -> rank a <= rank b)))
  | desc => (_ : Decision (Date_le (createdAt b) (createdAt a)
                           /\ (Date_le (createdAt a) (createdAt b) -> rank a <= rank b)))
  end.

(** [skip] and [take] over the ordered rows; a negative [take] counts from
    the end of the ordering. *)
Definition window (skip : Z) (take : option Z) (l : list Job) : list Job :=
  match take with
  | None => skipn (Z.to_nat skip) l
  | Some t =>
      if 0 <=? t then firstn (Z.to_nat t) (skipn (Z.to_nat skip) l)
      else rev (firstn (Z.to_nat (- t)) (skipn (Z.to_nat skip) (rev l)))
  end.

(** The compound lookup [where: { id, clerkId }]. *)
Definition key_matches (i u : string) (j : Job) : bool :=
  String.eqb (id j) i && String.eqb (clerkId j) u.

Definition get_str (data : gmap string Value) (k : string) : option string :=
  match data !! k with Some (VStr v) => Some v | _ => None end.

Definition get_date (parse : string -> option Date) (data : gmap string Value)
    (k : string) : option Date :=
  match data !! k with
  | Some (VDate d) => Some d
  | Some (VStr t) => parse t
  | None => None
  end.

Definition is_datetime_column (k : string) : bool :=
  String.eqb k "createdAt" || String.eqb k "updatedAt".

(** A field of [data] is accepted when it names a column of the model and
    carries a value of the column's type, a DateTime column taking a Date
    or a string the query engine can read as one; anything else is a
    PrismaClientValidationError. *)
Definition column_accepts (parse : string -> option Date) (k : string)
    (v : Value) : bool :=
  existsb (String.eqb k) job_columns
  && match v with
     | VStr t =>
         if is_datetime_column k
         then match parse t with Some _ => true | None => false end
         else true
     | VDate _ => is_datetime_column k
     end.

Definition data_valid (parse : string -> option Date)
    (data : gmap string Value) : bool :=
  forallb (fun kv => column_accepts parse (fst kv) (snd kv)) (map_to_list data).

Definition id_taken (i : string) (l : list Job) : bool :=
  existsb (fun j => String.eqb (id j) i) l.

(** The row after [update({ data })]: the fields present in [data] replace
    the stored ones and [updatedAt] is refreshed unless given; with no
    field in [data] nothing is written and the row stays as it is. *)
Definition apply_data (parse : string -> option Date)
    (data : gmap string Value) (now : Date) (j : Job) : Job :=
  let str k old := from_option (fun v => v) old (get_str data k) in
  mkJob (str "id" (id j)) (str "clerkId" (clerkId j))
        (from_option (fun d => d) (createdAt j) (get_date parse data "createdAt"))
        (from_option (fun d => d)
           (if decide (data = ∅) then updatedAt j else now)
           (get_date parse data "updatedAt"))
        (str "position" (position j)) (str "company" (company j))
        (str "location" (location j)) (str "status" (status j)) (str "mode" (mode j)).

Section Tally.
Context {K : Type} `{EqDecision K}.

(** Find the first entry for [k] and add one to its count; push
    [(k, 1)] when there is none. *)
Fixpoint bump (k : K) (acc : list (K * nat)) : list (K * nat) :=
  match acc with
  | [] => [(k, 1%nat)]
  | (k', n) :: rest =>
      if decide (k' = k) then (k', S n) :: rest else (k', n) :: bump k rest
  end.

Definition tally (l : list K) : list (K * nat) :=
  fold_left (fun acc k => bump k acc) l [].
End Tally.

(** *** The operations of [prisma.job] *)

Module prisma_job.

(** [prisma.job.findMany({ where, skip, take, orderBy })]; the query
    engine rejects a negative [skip] and a [skip] or [take] that does not
    fit 64 bits. *)
Definition findMany (w : JobWhereInput) (skip take : option Z) (o : SortOrder)
  : M (list Job) :=
  storage_call (fun s =>
    let k := match skip with Some k => k | None => 0 end in
    if (k <? 0) || negb (fits_int64 k)
       || negb (match take with Some t => fits_int64 t | None => true end)
    then (Throw (PrismaError "skip or take out of range"), s)
    else
      let rank := hd (fun _ => 0) (ties s) in
      (Ok (window k take
             (merge_sort (precedes o rank)
                (filter (fun j => where_matches w j = true) (rows s)))),
       set_ties (tl (ties s)) s)).

(** [prisma.job.count({ where })] *)
Definition count (w : JobWhereInput) : M nat :=
  storage_call (fun s => (Ok (length (filter (fun j => where_matches w j = true) (rows s))), s)).

(** [prisma.job.findUnique({ where: { id, clerkId } })] *)
Definition findUnique (i u : string) : M (option Job) :=
  storage_call (fun s => (Ok (List.find (key_matches i u) (rows s)), s)).

(** [prisma.job.create({ data })]: [id] defaults to a uuid, [createdAt] to
    now, [updatedAt] is set to now unless given; the primary key is unique
    (P2002 otherwise). *)
Definition create (data : gmap string Value) : M Job :=
  storage_call (fun s =>
    if negb (data_valid (parseDateTime s) data)
    then (Throw (PrismaError "PrismaClientValidationError"), s)
    else
      match get_str data "clerkId", get_str data "position", get_str data "company",
            get_str data "location", get_str data "status", get_str data "mode" with
      | Some u, Some p, Some c, Some l, Some st, Some m =>
          let '(i, s1) := match get_str data "id" with
                          | Some i => (i, s)
                          | None => (uuids s (uuid_next s), bump_uuid s)
                          end in
          if id_taken i (rows s1) then (Throw (PrismaError "P2002"), s1)
          else
            let job := mkJob i u
                         (from_option (fun d => d) (clock s1)
                            (get_date (parseDateTime s) data "createdAt"))
                         (from_option (fun d => d) (clock s1)
                            (get_date (parseDateTime s) data "updatedAt"))
                         p c l st m in
            (Ok job, set_rows (rows s1 ++ [job]) s1)
      | _, _, _, _, _, _ => (Throw (PrismaError "PrismaClientValidationError"), s)
      end).

(** [prisma.job.update({ where: { id, clerkId }, data })]; P2025 when no
    row has the compound key. *)
Definition update (i u : string) (data : gmap string Value) : M Job :=
  storage_call (fun s =>
    if negb (data_valid (parseDateTime s) data) then (Throw (PrismaError "PrismaClientValidationError"), s)
    else
      match List.find (key_matches i u) (rows s) with
      | None => (Throw (PrismaError "P2025"), s)
      | Some old =>
          let new := apply_data (parseDateTime s) data (clock s) old in
          if negb (String.eqb (id new) (id old)) && id_taken (id new) (rows s)
          then (Throw (PrismaError "P2002"), s)
          else (Ok new,
                set_rows (map (fun j => if key_matches i u j then new else j) (rows s)) s)
      end).

(** [prisma.job.delete({ where: { id, clerkId } })]; P2025 when no row has
    the compound key. *)
Definition delete (i u : string) : M Job :=
  storage_call (fun s =>
    match List.find (key_matches i u) (rows s) with
    | None => (Throw (PrismaError "P2025"), s)
    | Some old =>
        (Ok old, set_rows (List.filter (fun j => negb (key_matches i u j)) (rows s)) s)
    end).

(** [prisma.job.groupBy({ by: ["status"], _count: { status: true }, where })]:
    one group per distinct status with its number of rows. *)
Definition groupBy (w : JobWhereInput) : M (list (string * nat)) :=
  storage_call (fun s =>
    (Ok (tally (map status (filter (fun j => where_matches w j = true) (rows s)))), s)).

End prisma_job.

(** ** dayjs: the two calls the chart action makes *)

Module dayjs.

Definition isLeapYear (y : Z) : bool :=
  (y mod 4 =? 0) && (negb (y mod 100 =? 0) || (y mod 400 =? 0)).

Definition daysInMonth (y m : Z) : Z :=
  if m =? 1 then (if isLeapYear y then 29 else 28)
  else if (m =? 3) || (m =? 5) || (m =? 8) || (m =? 10) then 30
  else 31.

(** [d.subtract(n, "month")]: the month moves back by [n] (the year follows),
    the day of the month is capped by the length of the target month, the
    time of day is kept. *)
Definition subtract_month (n : Z) (d : Date) : Date :=
  let total := year d * 12 + month d - n in
  let y := total / 12 in
  let m := total mod 12 in
  mkDate y m (Z.min (day d) (daysInMonth y m)) (tod d).

Definition monthsShort : list string :=
  ["Jan"; "Feb"; "Mar"; "Apr"; "May"; "Jun";
   "Jul"; "Aug"; "Sep"; "Oct"; "Nov"; "Dec"].

Definition digit (n : Z) : ascii := ascii_of_nat (48 + Z.to_nat n).

(** [YY]: the last two decimal digits of the year (years of two digits or
    more). *)
Definition YY (y : Z) : string :=
  String (digit ((y mod 100) / 10)) (String (digit (y mod 10)) EmptyString).

Definition MMM (m : Z) : string := nth (Z.to_nat m) monthsShort "".

(** The label of month [m] (from 0) of year [y] under [format("MMM YY")]. *)
Definition month_label (y m : Z) : string := MMM m +:+ " " +:+ YY y.

(** [dayjs(d).format("MMM YY")] *)
Definition format_MMM_YY (d : Date) : string := month_label (year d) (month d).

(** [dayjs().toDate()]: the current instant. *)
Definition now : M Date := fun s => (Ok (clock s), s).

End dayjs.

(** ** Validation schema *)

(** Modelled from the spec: [createAndEditJobSchema] of utils/types.ts, which
    is not among the sources.  [position], [company] and [location] are
    strings of at least 2 characters (the README's form fields; the spec:
    non-empty, practically two characters or more), [status] is one of
    pending, interview, declined and [mode] one of full-time, part-time,
    internship.  Unknown keys are not an error.  An issue is recorded as the
    name of the offending field. *)
Definition JobStatus : list string := ["pending"; "interview"; "declined"].
Definition JobMode : list string := ["full-time"; "part-time"; "internship"].

Definition check_text (k : string) (values : gmap string Value) : list string :=
  match get_str values k with
  | Some v => if (2 <=? String.length v)%nat then [] else [k]
  | None => [k]
  end.

Definition check_enum (k : string) (allowed : list string)
    (values : gmap string Value) : list string :=
  match get_str values k with
  | Some v => if existsb (String.eqb v) allowed then [] else [k]
  | None => [k]
  end.

Definition schema_issues (values : gmap string Value) : list string :=
  check_text "position" values ++ check_text "company" values
  ++ check_text "location" values ++ check_enum "status" JobStatus values
  ++ check_enum "mode" JobMode values.

(** [createAndEditJobSchema.parse(values)]: throws a ZodError listing the
    issues; the parsed object is not used by the caller. *)
Definition createAndEditJobSchema_parse (values : gmap string Value) : M unit :=
  match schema_issues values with
  | [] => ret tt
  | issues => throw (ZodError issues)
  end.

(** ** The server actions (utils/actions.ts) *)

(** [console.error] has no effect on the world of the model. *)

Definition createJobAction (values : gmap string Value) : M (option Job) :=
  let* userId := authenticateAndRedirect in
  try_catch
    (let* _ := createAndEditJobSchema_parse values in
     let* job := prisma_job.create (<["clerkId" := VStr userId]> values) in
     ret (Some job))
    (fun error => ret None).

(** The object [getAllJobsAction] resolves to. *)
Record JobsPage := mkJobsPage {
  jobs : list Job;
  count : nat;
  page : Z;
  totalPages : JsNumber
}.

Definition owner_where (userId : string) : JobWhereInput :=
  mkWhere (Some userId) None None None.

(** The where clause [getAllJobsAction] builds. *)
Definition list_where (userId : string) (search jobStatus : option string)
  : JobWhereInput :=
  let whereClause := owner_where userId in
  let whereClause :=
    match search with
    | Some term =>
        if truthy term
        then mkWhere (where_clerkId whereClause)
               (Some [WherePosition (mkStringFilter term default_mode);
                      WhereCompany (mkStringFilter term default_mode)])
               (where_status whereClause) (where_createdAt whereClause)
        else whereClause
    | None => whereClause
    end in
  match jobStatus with
  | Some st =>
      if truthy st && negb (String.eqb st "all")
      then mkWhere (where_clerkId whereClause) (where_OR whereClause)
             (Some st) (where_createdAt whereClause)
      else whereClause
  | None => whereClause
  end.

(** The four parameters are the destructured fields of the argument object;
    [None] is an omitted field.  Page and limit are integers here, and the
    arithmetic on them is that of JavaScript as long as the values are safe
    integers. *)
Definition getAllJobsAction (search jobStatus : option string)
    (page limit : option Z) : M JobsPage :=
  let page := from_option (fun p => p) 1 page in
  let limit := from_option (fun l => l) 10 limit in
  let* userId := authenticateAndRedirect in
  try_catch
    (let whereClause := list_where userId search jobStatus in
     let skip := (page - 1) * limit in
     let* jobs := prisma_job.findMany whereClause (Some skip) (Some limit) desc in
     let* count := prisma_job.count whereClause in
     let totalPages := ceil_div (Z.of_nat count) limit in
     ret (mkJobsPage jobs count page totalPages))
    (fun error => ret (mkJobsPage [] 0 1 (Int 0))).

Definition deleteJobAction (id : string) : M (option Job) :=
  let* userId := authenticateAndRedirect in
  try_catch
    (let* job := prisma_job.delete id userId in ret (Some job))
    (fun error => ret None).

Definition getSingleJobAction (id : string) : M (option Job) :=
  let* userId := authenticateAndRedirect in
  let* job := try_catch (prisma_job.findUnique id userId) (fun error => ret None) in
  match job with
  | None => redirect "/jobs"
  | Some j => ret (Some j)
  end.

Definition updateJobAction (id : string) (values : gmap string Value)
  : M (option Job) :=
  let* userId := authenticateAndRedirect in
  try_catch
    (let* job := prisma_job.update id userId values in ret (Some job))
    (fun error => ret None).

Definition stats_keys : list string := ["pending"; "interview"; "declined"].

(** The reducer of [getStatsAction]; [curr] is a group [(status, _count)]. *)
Definition stats_step (acc : gmap string nat) (curr : string * nat)
  : gmap string nat :=
  let normalized := toLowerCase (fst curr) in
  if existsb (String.eqb normalized) stats_keys
  then <[normalized := (from_option (fun n => n) 0 (acc !! normalized) + snd curr)%nat]> acc
  else acc.

(** The resulting object is a finite map from its keys to the counts;
    [{ ...defaults, ...statsObject }] is the union in which [statsObject]
    wins. *)
Definition getStatsAction : M (gmap string nat) :=
  let* userId := authenticateAndRedirect in
  try_catch
    (let* stats := prisma_job.groupBy (owner_where userId) in
     let statsObject := fold_left stats_step stats ∅ in
     let defaultStats :=
       statsObject ∪ <["pending" := 0%nat]> (<["declined" := 0%nat]> (<["interview" := 0%nat]> ∅)) in
     ret defaultStats)
    (fun error => redirect "/jobs").

(** An entry [{ date, count }] of the chart is the pair [(date, count)]. *)
Definition getChartsDataAction : M (list (string * nat)) :=
  let* userId := authenticateAndRedirect in
  let* now := dayjs.now in
  let sixMonthsAgo := dayjs.subtract_month 6 now in
  try_catch
    (let* jobs := prisma_job.findMany
                    (mkWhere (Some userId) None None
                       (Some (mkDateTimeFilter sixMonthsAgo now)))
                    None None asc in
     let applicationsPerMonth :=
       fold_left (fun acc job => bump (dayjs.format_MMM_YY (createdAt job)) acc) jobs [] in
     ret applicationsPerMonth)
    (fun error => redirect "/jobs").

Definition getAllJobsForDownloadAction : M (list Job) :=
  let* userId := authenticateAndRedirect in
  try_catch
    (prisma_job.findMany (owner_where userId) None None desc)
    (fun error => ret []).

(** ** Vocabulary of the properties *)

(** The caller is signed in as [u]. *)
Definition authenticated (u : string) (s : Server) : Prop :=
  session s = Some u /\ truthy u = true.

(** [id] is the primary key of the table. *)
Definition primary_key (l : list Job) : Prop := NoDup (map id l).

(** The storage layer serves the next [n] storage calls. *)
Definition storage_serves (n : nat) (s : Server) : Prop :=
  forall i, (i < n)%nat -> faults s !! i <> Some true.

(** The storage layer fails on one of the next [n] storage calls. *)
Definition storage_fails_within (n : nat) (s : Server) : Prop :=
  exists i, (i < n)%nat /\ faults s !! i = Some true.

(** The claim that an invalid input is answered by a validation error that
    carries messages for the fields: the action ends in a ZodError with at
    least one issue. *)
Definition surfaces_field_messages (values : gmap string Value) (s : Server)
  : Prop :=
  exists issues, issues <> [] /\ fst (createJobAction values s) = Throw (ZodError issues).

(** The owner's records that match the search and status filter of the
    listing. *)
Definition matching (u : string) (search jobStatus : option string)
    (l : list Job) : list Job :=
  filter (fun j => where_matches (list_where u search jobStatus) j = true) l.

(** The world after one storage call that does not write. *)
Definition after_call (s : Server) : Server :=
  match faults s with
  | [] => s
  | _ :: fs => set_faults fs s
  end.

(** The world after one served [findMany]: the storage call is behind, and
    so is the rank the database used for this query. *)
Definition after_query (s : Server) : Server :=
  set_ties (tl (ties s)) (after_call s).

(** A record of owner [u] that matches the active search and status
    filter, stated on the record and not through a where clause.  A search
    term that is present and not empty asks for the term in [position] or
    in [company], compared as the store compares it (a case-sensitive LIKE
    pattern, see [like_contains]); a status that is present, not empty and
    not "all" asks for exactly that status. *)
Definition passes_filter (u : string) (search jobStatus : option string)
    (j : Job) : bool :=
  String.eqb (clerkId j) u
  && match search with
     | Some term =>
         if truthy term
         then like_contains term (position j) || like_contains term (company j)
         else true
     | None => true
     end
  && match jobStatus with
     | Some st =>
         if String.eqb st "" then true
         else if String.eqb st "all" then true
         else String.eqb (status j) st
     | None => true
     end.

(** No two of the records were created at the same instant. *)
Definition distinct_instants (l : list Job) : Prop := NoDup (map createdAt l).

(** Two worlds over the same table with the same caller; the storage
    faults to come and the way the database ranks ties may differ. *)
Definition same_table (s1 s2 : Server) : Prop :=
  session s1 = session s2 /\ rows s1 = rows s2.

(** The number of occurrences of [k] in [l]. *)
Definition occurrences {K : Type} `{EqDecision K} (k : K) (l : list K) : nat :=
  length (filter (fun x => x = k) l).

(** The records counted by the groups whose lower-cased status is [key]. *)
Fixpoint weight (key : string) (groups : list (string * nat)) : nat :=
  match groups with
  | [] => 0
  | (st, n) :: rest =>
      ((if decide (toLowerCase st = key) then n else 0) + weight key rest)%nat
  end.

(** The calendar month (year, month from 0) a record was created in. *)
Definition month_of (j : Job) : Z * Z :=
  (year (createdAt j), month (createdAt j)).

Definition month_before (a b : Z * Z) : Prop :=
  a.1 < b.1 \/ (a.1 = b.1 /\ a.2 < b.2).

Definition month_not_after (a b : Z * Z) : Prop :=
  a.1 < b.1 \/ (a.1 = b.1 /\ a.2 <= b.2).

(** A record of owner [u] created in the window from six months before
    [now] to [now], both ends included. *)
Definition in_trend_window (u : string) (now : Date) (j : Job) : Prop :=
  clerkId j = u
  /\ Date_le (dayjs.subtract_month 6 now) (createdAt j)
  /\ Date_le (createdAt j) now.

#[global] Instance in_trend_window_dec u now j : Decision (in_trend_window u now j) :=
  (_ : Decision (clerkId j = u
                 /\ Date_le (dayjs.subtract_month 6 now) (createdAt j)
                 /\ Date_le (createdAt j) now)).

(** ** A sample world *)

Module Sample.

Definition noon (y m d : Z) : Date := mkDate y m d 43200000.

(** Alice's records, one of Bob's, and one of Alice's from before the chart
    window.  Months count from 0: [noon 2026 9 12] is 12 October 2026. *)
Definition engineer : Job :=
  mkJob "job-1" "user_alice" (noon 2026 9 12) (noon 2026 9 12)
        "Engineer" "Acme" "Remote" "pending" "full-time".
Definition designer : Job :=
  mkJob "job-2" "user_bob" (noon 2026 8 3) (noon 2026 8 3)
        "Designer" "Globex" "Berlin, Germany" "Pending" "part-time".
Definition tester : Job :=
  mkJob "job-3" "user_alice" (noon 2026 10 1) (noon 2026 10 1)
        "Tester" "Initech" "Austin, TX" "Interview" "full-time".
Definition archived : Job :=
  mkJob "job-4" "user_alice" (noon 2025 11 20) (noon 2025 11 20)
        "Analyst" "Umbrella" "Remote" "on hold" "internship".

Definition uuid (n : nat) : string := "uuid-" +:+ String (ascii_of_nat (48 + n)) "".

(** Alice is signed in on 2 November 2026 and the storage layer is up. *)
Definition world : Server :=
  mkServer (Some "user_alice") (noon 2026 10 2)
           [engineer; designer; tester; archived] [] uuid 0 [] (fun _ => None).

(** The same world with the storage layer failing on the next call. *)
Definition outage : Server := set_faults [true] world.

(** A valid form that also carries an owner field. *)
Definition values_with_owner : gmap string Value :=
  <["position" := VStr "Developer"]> (<["company" := VStr "Hooli"]>
  (<["location" := VStr "Remote"]> (<["status" := VStr "pending"]>
  (<["mode" := VStr "full-time"]> (<["clerkId" := VStr "user_mallory"]> ∅))))).

(** The record that form creates for Alice, and the world after. *)
Definition created : Job :=
  mkJob "uuid-0" "user_alice" (noon 2026 10 2) (noon 2026 10 2)
        "Developer" "Hooli" "Remote" "pending" "full-time".

Definition world_after_create : Server :=
  mkServer (Some "user_alice") (noon 2026 10 2)
           [engineer; designer; tester; archived; created] [] uuid 1 []
           (fun _ => None).

(** A form with an empty position and a status outside the category set. *)
Definition invalid_values : gmap string Value :=
  <["position" := VStr ""]> (<["company" := VStr "Hooli"]>
  (<["location" := VStr "Remote"]> (<["status" := VStr "accepted"]>
  (<["mode" := VStr "full-time"]> ∅)))).

End Sample.

(** ** Maintenance scripts (scripts/) *)

(** The caller has no session: [auth()] gives null or an empty id. *)
Definition anonymous (s : Server) : Prop :=
  session s = None \/ session s = Some "".

(** The fields of the create and edit form. *)
Definition form_fields : list string :=
  ["position"; "company"; "location"; "status"; "mode"].

(** The value a record holds for a form field. *)
Definition form_value (k : string) (j : Job) : string :=
  if String.eqb k "position" then position j
  else if String.eqb k "company" then company j
  else if String.eqb k "location" then location j
  else if String.eqb k "status" then status j
  else mode j.

(** The records of a listing result, none when the action threw. *)
Definition listed (o : Outcome JobsPage) : list Job :=
  match o with Ok r => jobs r | Throw _ => [] end.

(** White space that [String.prototype.trim] strips, among code units below
    256: TAB, LF, VT, FF, CR, SPACE and NBSP. *)
Definition is_space (c : ascii) : bool :=
  let n := nat_of_ascii c in
  ((9 <=? n)%nat && (n <=? 13)%nat) || (n =? 32)%nat || (n =? 160)%nat.

Fixpoint trimStart (s : string) : string :=
  match s with
  | EmptyString => EmptyString
  | String c r => if is_space c then trimStart r else s
  end.

Fixpoint trimEnd (s : string) : string :=
  match s with
  | EmptyString => EmptyString
  | String c r =>
      match trimEnd r with
      | EmptyString => if is_space c then EmptyString else String c EmptyString
      | r' => String c r'
      end
  end.

(** [s.trim()] *)
Definition trim (s : string) : string := trimStart (trimEnd s).

(** The operations of [prisma.job] that only the scripts use. *)
Module prisma_job_admin.

(** [prisma.job.findMany({ select: { id: true, status: true } })], in the
    order of the table. *)
Definition findMany_id_status : M (list (string * string)) :=
  storage_call (fun s => (Ok (map (fun j => (id j, status j)) (rows s)), s)).

(** [prisma.job.update({ where: { id }, data })] *)
Definition update_by_id (i : string) (data : gmap string Value) : M Job :=
  storage_call (fun s =>
    if negb (data_valid (parseDateTime s) data) then (Throw (PrismaError "PrismaClientValidationError"), s)
    else
      match List.find (fun j => String.eqb (id j) i) (rows s) with
      | None => (Throw (PrismaError "P2025"), s)
      | Some old =>
          let new := apply_data (parseDateTime s) data (clock s) old in
          if negb (String.eqb (id new) (id old)) && id_taken (id new) (rows s)
          then (Throw (PrismaError "P2002"), s)
          else (Ok new,
                set_rows (map (fun j => if String.eqb (id j) i then new else j) (rows s)) s)
      end).

(** The row after [updateMany({ where: { clerkId: old }, data: { clerkId: new } })]. *)
Definition reassign (old new : string) (now : Date) (j : Job) : Job :=
  if String.eqb (clerkId j) old
  then mkJob (id j) new (createdAt j) now (position j) (company j)
             (location j) (status j) (mode j)
  else j.

(** [prisma.job.updateMany({ where: { clerkId: old }, data: { clerkId: new } })]:
    resolves to the number of rows matched. *)
Definition updateMany_clerkId (old new : string) : M nat :=
  storage_call (fun s =>
    (Ok (length (filter (fun j => clerkId j = old) (rows s))),
     set_rows (map (reassign old new (clock s)) (rows s)) s)).

End prisma_job_admin.

(** scripts/db-fix-status.ts *)
Module db_fix_status.

Definition VALID_STATUSES : list string := ["pending"; "interview"; "declined"].

Definition normalizeStatus (raw : string) : option string :=
  let trimmed := toLowerCase (trim raw) in
  if negb (truthy trimmed) then Some "pending"
  else if existsb (String.eqb trimmed) VALID_STATUSES then Some trimmed
  else None.

(** The entries [{ id, to }] collected from the selected [(id, status)]. *)
Definition toFix (jobs : list (string * string)) : list (string * string) :=
  flat_map (fun job =>
              match normalizeStatus (snd job) with
              | Some normalized =>
                  if truthy normalized && negb (String.eqb normalized (snd job))
                  then [(fst job, normalized)] else []
              | None => []
              end) jobs.

(** The update loop; [updated] is the counter the script prints. *)
Fixpoint apply_fixes (fixes : list (string * string)) (updated : nat) : M nat :=
  match fixes with
  | [] => ret updated
  | (i, to) :: rest =>
      let* _ := prisma_job_admin.update_by_id i (<["status" := VStr to]> ∅) in
      apply_fixes rest (S updated)
  end.

(** [main], resolving to the number of rows it fixed (what it logs). *)
Definition main : M nat :=
  let* jobs := prisma_job_admin.findMany_id_status in
  let fixes := toFix jobs in
  if (length fixes =? 0)%nat then ret 0%nat
  else apply_fixes fixes 0%nat.

End db_fix_status.

(** scripts/db-migrate-clerkid.ts *)
Module db_migrate_clerkid.

(** [main] over [process.argv.slice(2)]; [None] stands for the usage
    message and [process.exit(1)], otherwise the count it logs. *)
Definition main (argv : list string) : M (option nat) :=
  match argv with
  | oldClerkId :: newClerkId :: _ =>
      if negb (truthy oldClerkId) || negb (truthy newClerkId) then ret None
      else
        let* count := prisma_job_admin.updateMany_clerkId oldClerkId newClerkId in
        ret (Some count)
  | _ => ret None
  end.

End db_migrate_clerkid.

(** The row [db_fix_status.main] leaves in place of [j]. *)
Definition fix_row (now : Date) (j : Job) : Job :=
  match db_fix_status.normalizeStatus (status j) with
  | Some normalized =>
      if String.eqb normalized (status j) then j
      else apply_data (fun _ => None) (<["status" := VStr normalized]> ∅) now j
  | None => j
  end.

(** No white space in [s]. *)
Fixpoint no_space (s : string) : bool :=
  match s with
  | EmptyString => true
  | String c r => negb (is_space c) && no_space r
  end.

(** A second sample world: Alice's table after a careless import. *)
Module Imported.

Definition padded : Job :=
  mkJob "job-7" "user_alice" (Sample.noon 2026 9 20) (Sample.noon 2026 9 20)
        "Engineer" "Acme" "Remote" (" Declined" +:+ String (ascii_of_nat 10) "")
        "full-time".
Definition blank : Job :=
  mkJob "job-8" "user_alice" (Sample.noon 2026 9 21) (Sample.noon 2026 9 21)
        "Tester" "Initech" "Remote" "" "full-time".
Definition fine : Job :=
  mkJob "job-9" "user_bob" (Sample.noon 2026 9 22) (Sample.noon 2026 9 22)
        "Designer" "Globex" "Remote" "interview" "part-time".

Definition world : Server :=
  mkServer (Some "user_alice") (Sample.noon 2026 10 2)
           [padded; blank; fine] [] Sample.uuid 0 [] (fun _ => None).

(** A caller without a session. *)
Definition signed_out : Server :=
  mkServer None (Sample.noon 2026 10 2) [padded; blank; fine] [] Sample.uuid 0
           [] (fun _ => None).

(** A form with exactly the five fields. *)
Definition form : gmap string Value :=
  <["position" := VStr "Developer"]> (<["company" := VStr "Hooli"]>
  (<["location" := VStr "Remote"]> (<["status" := VStr "pending"]>
  (<["mode" := VStr "full-time"]> ∅)))).

(** An edit that changes the status only, to a value the schema rejects. *)
Definition edit : gmap string Value := <["status" := VStr "accepted"]> ∅.

(** The same world with a query engine that reads one ISO-8601 string,
    and the form with a creation date given as that string. *)
Definition reads_iso (t : string) : option Date :=
  if String.eqb t "2026-10-01T12:00:00.000" then Some (Sample.noon 2026 9 1)
  else None.

Definition world_reading_iso : Server :=
  mkServer (Some "user_alice") (Sample.noon 2026 10 2)
           [padded; blank; fine] [] Sample.uuid 0 [] reads_iso.

Definition dated_form : gmap string Value :=
  <["createdAt" := VStr "2026-10-01T12:00:00.000"]> form.

End Imported.

(** * Properties *)

(** ** The monad and the session *)

Lemma authenticate_ok u s :
  authenticated u s -> authenticateAndRedirect s = (Ok u, s).
Proof.
  intros [Hs Ht]. unfold authenticateAndRedirect. rewrite Hs, Ht. reflexivity.
Qed.

Lemma authenticate_anonymous s :
  session s = None -> authenticateAndRedirect s = (Throw (NextRedirect "/"), s).
Proof. intros Hs. unfold authenticateAndRedirect. now rewrite Hs. Qed.

Ltac unfold_monad :=
  unfold try_catch, bind, ret, throw, redirect, storage_call in *.

Ltac signed_in H :=
  unfold bind at 1; rewrite (authenticate_ok _ _ H).

(** ** Compound-key lookups *)

Lemma primary_key_inj (l : list Job) (a b : Job) :
  primary_key l -> In a l -> In b l -> id a = id b -> a = b.
Proof.
  unfold primary_key. induction l as [|x l IH]; simpl; [tauto|].
  intros Hnd Ha Hb Hid. apply NoDup_cons in Hnd as [Hx Hnd].
  destruct Ha as [<-|Ha], Hb as [<-|Hb]; auto.
  - exfalso. apply Hx. rewrite Hid. apply list_elem_of_In, in_map, Hb.
  - exfalso. apply Hx. rewrite <- Hid. apply list_elem_of_In, in_map, Ha.
Qed.

Lemma find_foreign_key (l : list Job) (r : Job) (u : string) :
  primary_key l -> In r l -> u <> clerkId r ->
  List.find (key_matches (id r) u) l = None.
Proof.
  intros Hpk Hr Hne.
  destruct (List.find (key_matches (id r) u) l) as [j|] eqn:Hf; [|reflexivity].
  apply find_some in Hf as [Hj Hk]. unfold key_matches in Hk.
  apply andb_true_iff in Hk as [Hi Hu].
  apply String.eqb_eq in Hi. apply String.eqb_eq in Hu.
  assert (j = r) by (eapply primary_key_inj; eauto). subst j. congruence.
Qed.

(** C1. A record [r] of another owner is out of reach of a signed-in caller
    [b]: reading it by id ends in the redirect to /jobs, updating and
    deleting it by id return null, and the table is left as it was. The
    compound key (id, clerkId) decides, not the id. *)
Theorem ownership_isolation (s : Server) (r : Job) (b : string)
    (values : gmap string Value) :
  primary_key (rows s) -> In r (rows s) -> authenticated b s -> b <> clerkId r ->
  (fst (getSingleJobAction (id r) s) = Throw (NextRedirect "/jobs")
   /\ rows (snd (getSingleJobAction (id r) s)) = rows s)
  /\ (fst (updateJobAction (id r) values s) = Ok None
      /\ rows (snd (updateJobAction (id r) values s)) = rows s)
  /\ (fst (deleteJobAction (id r) s) = Ok None
      /\ rows (snd (deleteJobAction (id r) s)) = rows s).
Proof.
  intros Hpk Hr Hb Hne.
  pose proof (find_foreign_key _ _ _ Hpk Hr Hne) as Hfind.
  repeat split.
  - unfold getSingleJobAction. signed_in Hb.
    unfold_monad. unfold prisma_job.findUnique, storage_call.
    destruct (faults s) as [|[] fs]; simpl; rewrite ?Hfind; reflexivity.
  - unfold getSingleJobAction. signed_in Hb.
    unfold_monad. unfold prisma_job.findUnique, storage_call.
    destruct (faults s) as [|[] fs]; simpl; rewrite ?Hfind; reflexivity.
  - unfold updateJobAction. signed_in Hb.
    unfold_monad. unfold prisma_job.update, storage_call.
    destruct (faults s) as [|[] fs]; simpl; rewrite ?Hfind;
      destruct (data_valid (parseDateTime s) values); reflexivity.
  - unfold updateJobAction. signed_in Hb.
    unfold_monad. unfold prisma_job.update, storage_call.
    destruct (faults s) as [|[] fs]; simpl; rewrite ?Hfind;
      destruct (data_valid (parseDateTime s) values); reflexivity.
  - unfold deleteJobAction. signed_in Hb.
    unfold_monad. unfold prisma_job.delete, storage_call.
    destruct (faults s) as [|[] fs]; simpl; rewrite ?Hfind; reflexivity.
  - unfold deleteJobAction. signed_in Hb.
    unfold_monad. unfold prisma_job.delete, storage_call.
    destruct (faults s) as [|[] fs]; simpl; rewrite ?Hfind; reflexivity.
Qed.

(** ** Creation *)

Lemma create_inv data s job s' :
  prisma_job.create data s = (Ok job, s') ->
  get_str data "clerkId" = Some (clerkId job) /\ rows s' = (rows s ++ [job])%list.
Proof.
  unfold prisma_job.create, storage_call.
  destruct (faults s) as [|[] fs]; [|discriminate|];
    (cbn [set_faults parseDateTime];
     destruct (data_valid (parseDateTime s) data); simpl; [|discriminate];
     destruct (get_str data "clerkId") as [u|]; [|discriminate];
     destruct (get_str data "position") as [p|]; [|discriminate];
     destruct (get_str data "company") as [c|]; [|discriminate];
     destruct (get_str data "location") as [l|]; [|discriminate];
     destruct (get_str data "status") as [st|]; [|discriminate];
     destruct (get_str data "mode") as [m|]; [|discriminate];
     destruct (get_str data "id") as [i|]; simpl;
     destruct (id_taken _ _); try discriminate;
     intros [= <- <-]; split; reflexivity).
Qed.

Lemma get_str_insert (values : gmap string Value) k v :
  get_str (<[k := VStr v]> values) k = Some v.
Proof. unfold get_str. now rewrite lookup_insert_eq. Qed.

(** C2 (amended). Whenever [createJobAction] succeeds for a caller signed
    in as [u], the record it appends to the table has [clerkId = u],
    whatever the [values] object carries, an owner field included. *)
Theorem create_owner_is_caller (u : string) (values : gmap string Value)
    (s s' : Server) (job : Job) :
  authenticated u s ->
  createJobAction values s = (Ok (Some job), s') ->
  clerkId job = u /\ rows s' = (rows s ++ [job])%list.
Proof.
  intros Hu. unfold createJobAction. signed_in Hu.
  unfold try_catch, bind at 1.
  unfold createAndEditJobSchema_parse.
  destruct (schema_issues values); [|unfold throw; simpl; discriminate].
  unfold ret at 1, bind.
  destruct (prisma_job.create _ s) as [[j|e] s1] eqn:Hc; [|unfold ret; discriminate].
  unfold ret. intros [= <- <-].
  apply create_inv in Hc as [Hown Hrows].
  rewrite get_str_insert in Hown. split; congruence.
Qed.

(** C9 (amended). An input that fails the schema makes [createJobAction]
    return null, the signal it also gives for a storage failure; the issues
    are not returned, no storage call is made and the world is unchanged. *)
Theorem create_invalid_returns_null (u : string) (values : gmap string Value)
    (s : Server) :
  authenticated u s -> schema_issues values <> [] ->
  createJobAction values s = (Ok None, s).
Proof.
  intros Hu Hbad. unfold createJobAction. signed_in Hu.
  unfold try_catch, bind, createAndEditJobSchema_parse.
  destruct (schema_issues values) as [|i rest]; [congruence|reflexivity].
Qed.

(** ** The order of instants *)

Lemma Date_leb_spec (a b : Date) :
  Date_leb a b = true <->
  year a < year b \/
  (year a = year b /\
   (month a < month b \/
    (month a = month b /\
     (day a < day b \/ (day a = day b /\ tod a <= tod b))))).
Proof.
  unfold Date_leb, Date_compare.
  destruct (Z.compare_spec (year a) (year b));
    destruct (Z.compare_spec (month a) (month b));
    destruct (Z.compare_spec (day a) (day b));
    destruct (Z.compare_spec (tod a) (tod b));
    split; intros; try lia; try discriminate; try reflexivity.
Qed.

Lemma Date_le_total (a b : Date) : Date_le a b \/ Date_le b a.
Proof. unfold Date_le. rewrite !Date_leb_spec. lia. Qed.

Lemma Date_le_trans (a b c : Date) : Date_le a b -> Date_le b c -> Date_le a c.
Proof. unfold Date_le. rewrite !Date_leb_spec. lia. Qed.

#[global] Instance ordered_total o : Total (ordered o).
Proof. intros a b. destruct o; apply Date_le_total. Qed.

#[global] Instance ordered_trans o : Transitive (ordered o).
Proof. intros a b c. destruct o; simpl; eauto using Date_le_trans. Qed.

(** ** The order of one query *)

#[global] Instance precedes_total o rank : Total (precedes o rank).
Proof.
  intros a b. unfold precedes.
  pose proof (Date_le_total (createdAt a) (createdAt b)) as Ht.
  destruct (decide (Date_le (createdAt a) (createdAt b))) as [Hab|Hab];
    destruct (decide (Date_le (createdAt b) (createdAt a))) as [Hba|Hba];
    destruct o; try tauto;
    destruct (Z.le_ge_cases (rank a) (rank b)); tauto.
Qed.

#[global] Instance precedes_trans o rank : Transitive (precedes o rank).
Proof.
  intros a b c. unfold precedes. destruct o; intros [H1 R1] [H2 R2]; split;
    eauto using Date_le_trans; intros H3;
    (etransitivity; [apply R1|apply R2]); eauto using Date_le_trans.
Qed.

Lemma precedes_ordered o rank a b : precedes o rank a b -> ordered o a b.
Proof. destruct o; intros [H _]; exact H. Qed.

Lemma StronglySorted_weaken {A} (R S : relation A) (l : list A) :
  (forall a b, R a b -> S a b) -> StronglySorted R l -> StronglySorted S l.
Proof.
  intros HRS. induction 1 as [|x l Hl IH Hx]; constructor; [assumption|].
  eapply Forall_impl; [exact Hx|]. intros b. apply HRS.
Qed.

(** Whatever rank the database gives to ties, a query returns its rows in
    the order of [createdAt] that [orderBy] asks for. *)
Lemma query_sorted o rank (l : list Job) :
  StronglySorted (ordered o) (merge_sort (precedes o rank) l).
Proof.
  apply (StronglySorted_weaken (precedes o rank)); [apply precedes_ordered|].
  apply StronglySorted_merge_sort; apply _.
Qed.

(** ** Storage calls *)

Lemma rows_after_call s : rows (after_call s) = rows s.
Proof. unfold after_call. now destruct (faults s). Qed.

Lemma clock_after_call s : clock (after_call s) = clock s.
Proof. unfold after_call. now destruct (faults s). Qed.

Lemma faults_after_call s i : faults (after_call s) !! i = faults s !! S i.
Proof.
  unfold after_call. destruct (faults s) as [|b fs] eqn:E; [|reflexivity].
  rewrite E. reflexivity.
Qed.

Lemma storage_call_serves {A} (op : M A) s :
  faults s !! 0%nat <> Some true -> storage_call op s = op (after_call s).
Proof.
  unfold storage_call, after_call.
  destruct (faults s) as [|[] fs]; intros H; try reflexivity.
  exfalso. apply H. reflexivity.
Qed.

Lemma storage_call_fails {A} (op : M A) s :
  faults s !! 0%nat = Some true ->
  storage_call op s = (Throw (PrismaError "P1001"), after_call s).
Proof.
  unfold storage_call, after_call.
  destruct (faults s) as [|[] fs]; intros H; try reflexivity; discriminate H.
Qed.

Lemma parseDateTime_after_call s : parseDateTime (after_call s) = parseDateTime s.
Proof. unfold after_call. now destruct (faults s). Qed.

Lemma ties_after_call s : ties (after_call s) = ties s.
Proof. unfold after_call. now destruct (faults s). Qed.

Lemma rows_after_query s : rows (after_query s) = rows s.
Proof. unfold after_query. cbn [set_ties rows]. apply rows_after_call. Qed.

Lemma clock_after_query s : clock (after_query s) = clock s.
Proof. unfold after_query. cbn [set_ties clock]. apply clock_after_call. Qed.

Lemma faults_after_query s i : faults (after_query s) !! i = faults s !! S i.
Proof. unfold after_query. cbn [set_ties faults]. apply faults_after_call. Qed.

(** ** Queries *)

Lemma findMany_fails w skip take o s :
  faults s !! 0%nat = Some true ->
  prisma_job.findMany w skip take o s
  = (Throw (PrismaError "P1001"), after_call s).
Proof. intros H. unfold prisma_job.findMany. now rewrite storage_call_fails. Qed.

Lemma findMany_served w skip take o s :
  faults s !! 0%nat <> Some true ->
  0 <= from_option (fun k => k) 0 skip ->
  fits_int64 (from_option (fun k => k) 0 skip) = true ->
  from_option fits_int64 true take = true ->
  prisma_job.findMany w skip take o s
  = (Ok (window (from_option (fun k => k) 0 skip) take
           (merge_sort (precedes o (hd (fun _ => 0) (ties s)))
              (filter (fun j => where_matches w j = true) (rows s)))),
     after_query s).
Proof.
  intros Hs Hk Hfit Htake. unfold prisma_job.findMany.
  rewrite storage_call_serves by assumption.
  destruct skip as [k|], take as [t|]; cbn [from_option] in *;
    rewrite ?Hfit, ?Htake, ?(proj2 (Z.ltb_ge _ 0) Hk);
    cbn [orb negb fits_int64]; rewrite ?rows_after_call, ?ties_after_call;
    reflexivity.
Qed.

Lemma findMany_rejects w skip take o s :
  faults s !! 0%nat <> Some true ->
  from_option (fun k => k) 0 skip < 0
  \/ fits_int64 (from_option (fun k => k) 0 skip) = false
  \/ from_option fits_int64 true take = false ->
  prisma_job.findMany w skip take o s
  = (Throw (PrismaError "skip or take out of range"), after_call s).
Proof.
  intros Hs Hbad. unfold prisma_job.findMany.
  rewrite storage_call_serves by assumption.
  destruct skip as [k|], take as [t|]; cbn [from_option] in *;
    destruct Hbad as [Hbad|[Hbad|Hbad]];
    try (apply Z.ltb_lt in Hbad); rewrite ?Hbad, ?orb_true_r;
    try reflexivity; try discriminate; try lia.
Qed.

(** A query the storage layer serves is answered by the rows or rejected
    for its range. *)
Lemma findMany_cases w skip take o s :
  faults s !! 0%nat <> Some true ->
  (exists js, prisma_job.findMany w skip take o s = (Ok js, after_query s))
  \/ prisma_job.findMany w skip take o s
     = (Throw (PrismaError "skip or take out of range"), after_call s).
Proof.
  intros Hs. unfold prisma_job.findMany.
  rewrite storage_call_serves by assumption.
  destruct (_ || _).
  - now right.
  - left. eexists. unfold after_query. rewrite ties_after_call. reflexivity.
Qed.

(** ** Listing *)

Lemma ceil_div_spec (n p : Z) :
  0 < p ->
  exists t, ceil_div n p = Int t /\ (t - 1) * p < n <= t * p.
Proof.
  intros Hp. unfold ceil_div.
  destruct (Z.eqb_spec p 0) as [->|_]; [lia|].
  exists (- (- n / p)). split; [reflexivity|].
  pose proof (Z.div_mod (- n) p ltac:(lia)).
  pose proof (Z.mod_pos_bound (- n) p Hp). nia.
Qed.

Lemma page_length (l : list Job) (k p : Z) :
  1 <= k -> 0 < p ->
  Z.of_nat (length (take (Z.to_nat p) (drop (Z.to_nat ((k - 1) * p)) l)))
  = Z.min p (Z.max 0 (Z.of_nat (length l) - (k - 1) * p)).
Proof.
  intros Hk Hp. rewrite length_take, length_drop.
  assert (0 <= (k - 1) * p) by nia. lia.
Qed.

Lemma StronglySorted_page {A} (R : relation A) (l : list A) (n m : nat) :
  StronglySorted R l -> StronglySorted R (take n (drop m l)).
Proof.
  intros Hs. rewrite <- (take_drop m l) in Hs.
  apply StronglySorted_app_1_r in Hs.
  rewrite <- (take_drop n (drop m l)) in Hs.
  now apply StronglySorted_app_1_l in Hs.
Qed.

Lemma safe_integer_fits (z : Z) : safe_integer z -> fits_int64 z = true.
Proof.
  unfold safe_integer, fits_int64. intros [Hlo Hhi].
  apply andb_true_iff. rewrite !Z.leb_le.
  change (2 ^ 53) with 9007199254740992 in *.
  change (2 ^ 63) with 9223372036854775808. lia.
Qed.

(** The where clause built by the listing tests what the filter of the
    listing asks for. *)
Lemma list_where_spec (u : string) (search jobStatus : option string) (j : Job) :
  where_matches (list_where u search jobStatus) j
  = passes_filter u search jobStatus j.
Proof.
  unfold list_where, passes_filter.
  destruct search as [term|]; [destruct (truthy term)|];
    (destruct jobStatus as [[|c st]|];
     [|destruct (String.eqb (String c st) "all") eqn:Hall|]);
    cbn [truthy negb andb String.eqb]; rewrite ?Hall; cbn [negb andb];
    unfold where_matches, owner_where;
    cbn [where_clerkId where_OR where_status where_createdAt existsb
         field_where_matches string_filter_matches query_mode contains];
    rewrite ?andb_true_r, ?orb_false_r; reflexivity.
Qed.

Lemma matching_spec (u : string) (search jobStatus : option string)
    (l : list Job) :
  matching u search jobStatus l
  = filter (fun j => passes_filter u search jobStatus j = true) l.
Proof.
  unfold matching. apply list_filter_iff. intros j.
  now rewrite list_where_spec.
Qed.

(** The listing when both of its storage calls are served and the skip and
    the page size are in the range of the store. *)
Lemma listing_served (u : string) (search jobStatus : option string)
    (k p : Z) (s : Server) :
  authenticated u s -> storage_serves 2 s ->
  0 <= (k - 1) * p -> fits_int64 ((k - 1) * p) = true -> fits_int64 p = true ->
  fst (getAllJobsAction search jobStatus (Some k) (Some p) s)
  = Ok (mkJobsPage
          (window ((k - 1) * p) (Some p)
             (merge_sort (precedes desc (hd (fun _ => 0) (ties s)))
                (matching u search jobStatus (rows s))))
          (length (matching u search jobStatus (rows s))) k
          (ceil_div (Z.of_nat (length (matching u search jobStatus (rows s)))) p)).
Proof.
  intros Hu Hserve Hskip Hfs Hfp. unfold getAllJobsAction. simpl from_option.
  signed_in Hu. unfold try_catch, bind.
  rewrite findMany_served by (assumption || (apply Hserve; lia)).
  unfold prisma_job.count.
  rewrite storage_call_serves by (rewrite faults_after_query; apply Hserve; lia).
  rewrite !rows_after_call, !rows_after_query. reflexivity.
Qed.

(** C3 (amended). For a signed-in owner, a served store, a page [k >= 1]
    and a page size [p > 0], with [p] and the skip [(k-1)*p] in the range
    of integers the program computes exactly and the store accepts: the
    listing returns the records that follow the first [(k-1)*p] of the
    owner's matching records in an order [newest_first] that is descending
    in [createdAt], at most [p] of them, that is min(p, max(0, N-(k-1)*p))
    records; [count] is the number N of matching records; [totalPages] is
    the ceiling of N/p; a page beyond [totalPages] is empty, without
    error. *)
Theorem pagination (u : string) (search jobStatus : option string) (k p : Z)
    (s : Server) :
  authenticated u s -> storage_serves 2 s -> 1 <= k -> 0 < p ->
  safe_integer p -> safe_integer ((k - 1) * p) ->
  let found := filter (fun j => passes_filter u search jobStatus j = true) (rows s) in
  exists r t newest_first,
    fst (getAllJobsAction search jobStatus (Some k) (Some p) s) = Ok r
    /\ newest_first ≡ₚ found
    /\ StronglySorted (ordered desc) newest_first
    /\ jobs r = take (Z.to_nat p) (drop (Z.to_nat ((k - 1) * p)) newest_first)
    /\ StronglySorted (ordered desc) (jobs r)
    /\ Z.of_nat (length (jobs r))
       = Z.min p (Z.max 0 (Z.of_nat (length found) - (k - 1) * p))
    /\ count r = length found
    /\ page r = k
    /\ totalPages r = Int t
    /\ (t - 1) * p < Z.of_nat (length found) <= t * p
    /\ (t < k -> jobs r = []).
Proof.
  intros Hu Hserve Hk Hp Hsp Hss found.
  destruct (ceil_div_spec (Z.of_nat (length found)) p Hp) as (t & Ht & Hbounds).
  set (newest_first := merge_sort (precedes desc (hd (fun _ => 0) (ties s))) found).
  assert (Hperm : newest_first ≡ₚ found) by apply merge_sort_Permutation.
  assert (Hsorted : StronglySorted (ordered desc) newest_first)
    by apply query_sorted.
  exists (mkJobsPage
            (take (Z.to_nat p) (drop (Z.to_nat ((k - 1) * p)) newest_first))
            (length found) k (Int t)), t, newest_first.
  split; [|repeat split; try tauto; try lia].
  - rewrite (listing_served u)
      by (assumption || nia || now apply safe_integer_fits).
    rewrite matching_spec. fold found. fold newest_first. unfold window.
    rewrite (proj2 (Z.leb_le 0 p)) by lia.
    rewrite <- Ht. reflexivity.
  - simpl. now apply StronglySorted_page.
  - simpl. rewrite page_length by lia.
    now rewrite (Permutation_length Hperm).
  - intros Hlt. simpl. rewrite drop_ge; [apply take_nil|].
    rewrite (Permutation_length Hperm). nia.
Qed.

(** The fallback is also the answer to a page size or a skip beyond the
    range of the store. *)
Lemma listing_out_of_range (u : string) (search jobStatus : option string)
    (k l : Z) (s : Server) :
  authenticated u s ->
  fits_int64 ((k - 1) * l) = false \/ fits_int64 l = false ->
  fst (getAllJobsAction search jobStatus (Some k) (Some l) s)
  = Ok (mkJobsPage [] 0 1 (Int 0)).
Proof.
  intros Hu Hbad. unfold getAllJobsAction. simpl from_option. signed_in Hu.
  unfold try_catch, bind.
  destruct (decide (faults s !! 0%nat = Some true)) as [H0|H0].
  - now rewrite findMany_fails.
  - rewrite findMany_rejects; [reflexivity|assumption|].
    cbn [from_option]. tauto.
Qed.

(** The result the listing falls back to in its catch block. *)
Lemma listing_rejected (u : string) (search jobStatus : option string)
    (k l : Z) (s : Server) :
  authenticated u s -> (k - 1) * l < 0 ->
  fst (getAllJobsAction search jobStatus (Some k) (Some l) s)
  = Ok (mkJobsPage [] 0 1 (Int 0)).
Proof.
  intros Hu Hneg. unfold getAllJobsAction. simpl from_option. signed_in Hu.
  unfold try_catch, bind.
  destruct (decide (faults s !! 0%nat = Some true)) as [H0|H0].
  - now rewrite findMany_fails.
  - rewrite findMany_rejects; [reflexivity|assumption|]. now left.
Qed.

(** C8 (amended). Only an omitted page stands for page 1.  An integer page
    below 1 is not clamped: with a positive page size the skip
    [(page - 1) * limit] is negative, the query is rejected, and the
    listing returns its fallback (no records, count 0, page 1, totalPages
    0). *)
Theorem page_below_one_not_clamped (u : string)
    (search jobStatus : option string) (k : Z) (limit : option Z) (s : Server) :
  authenticated u s -> k < 1 -> 0 < from_option (fun l => l) 10 limit ->
  getAllJobsAction search jobStatus None limit s
  = getAllJobsAction search jobStatus (Some 1) limit s
  /\ fst (getAllJobsAction search jobStatus (Some k) limit s)
     = Ok (mkJobsPage [] 0 1 (Int 0)).
Proof.
  intros Hu Hk Hl. split; [reflexivity|].
  destruct limit as [l|]; simpl in Hl.
  - apply (listing_rejected u); [assumption|nia].
  - apply (listing_rejected u search jobStatus k 10); [assumption|lia].
Qed.

(** ** Fail-soft and fail-hard actions *)

Lemma listing_fail_soft (u : string) (search jobStatus : option string)
    (page limit : option Z) (s : Server) :
  authenticated u s -> storage_fails_within 2 s ->
  fst (getAllJobsAction search jobStatus page limit s)
  = Ok (mkJobsPage [] 0 1 (Int 0)).
Proof.
  intros Hu (i & Hi & Hf). unfold getAllJobsAction. signed_in Hu.
  unfold try_catch, bind.
  destruct (decide (faults s !! 0%nat = Some true)) as [H0|H0].
  - now rewrite findMany_fails.
  - destruct (findMany_cases (list_where u search jobStatus)
                (Some ((from_option (fun p => p) 1 page - 1)
                       * from_option (fun l => l) 10 limit))
                (Some (from_option (fun l => l) 10 limit)) desc s H0)
      as [(js & ->)| ->]; [|reflexivity].
    unfold prisma_job.count.
    rewrite storage_call_fails; [reflexivity|].
    rewrite faults_after_query.
    destruct i as [|[|i]]; [congruence|assumption|lia].
Qed.

Lemma first_call_fails (s : Server) :
  storage_fails_within 1 s -> faults s !! 0%nat = Some true.
Proof. intros (i & Hi & Hf). destruct i; [assumption|lia]. Qed.

(** C7. When the storage layer fails during the action, the listing
    answers with the empty page (no records, count 0, page 1, totalPages
    0) and throws nothing, while the statistics and the chart actions end
    in the redirect to /jobs and return no data. *)
Theorem fail_soft_versus_fail_hard (u : string)
    (search jobStatus : option string) (page limit : option Z) (s : Server) :
  authenticated u s ->
  (storage_fails_within 2 s ->
   fst (getAllJobsAction search jobStatus page limit s)
   = Ok (mkJobsPage [] 0 1 (Int 0)))
  /\ (storage_fails_within 1 s ->
      fst (getStatsAction s) = Throw (NextRedirect "/jobs"))
  /\ (storage_fails_within 1 s ->
      fst (getChartsDataAction s) = Throw (NextRedirect "/jobs")).
Proof.
  intros Hu. repeat split.
  - intros Hf. now apply (listing_fail_soft u).
  - intros Hf%first_call_fails. unfold getStatsAction. signed_in Hu.
    unfold try_catch, bind, prisma_job.groupBy.
    rewrite storage_call_fails by assumption. reflexivity.
  - intros Hf%first_call_fails. unfold getChartsDataAction. signed_in Hu.
    unfold bind at 1, dayjs.now.
    unfold try_catch, bind.
    rewrite findMany_fails by assumption. reflexivity.
Qed.

(** ** Export *)

Lemma owner_where_spec (u : string) (j : Job) :
  where_matches (owner_where u) j = true <-> clerkId j = u.
Proof.
  unfold where_matches, owner_where. simpl.
  rewrite !andb_true_r. apply String.eqb_eq.
Qed.

Lemma download_served (u : string) (s : Server) :
  authenticated u s -> storage_serves 1 s ->
  fst (getAllJobsForDownloadAction s)
  = Ok (merge_sort (precedes desc (hd (fun _ => 0) (ties s)))
          (filter (fun j => where_matches (owner_where u) j = true) (rows s))).
Proof.
  intros Hu Hserve. unfold getAllJobsForDownloadAction. signed_in Hu.
  unfold try_catch.
  rewrite findMany_served by ((apply Hserve; lia) || reflexivity || (simpl; lia)).
  cbn [fst window from_option]. now rewrite skipn_O.
Qed.

(** C10. The export is fail-soft: when its storage call fails it returns
    the empty list, with no error and no redirect; when the call is served
    it returns every record of the owner, none cut off by a page limit,
    in descending order of [createdAt]. *)
Theorem download_fail_soft (u : string) (s : Server) :
  authenticated u s ->
  (storage_fails_within 1 s -> fst (getAllJobsForDownloadAction s) = Ok [])
  /\ (storage_serves 1 s ->
      exists all,
        fst (getAllJobsForDownloadAction s) = Ok all
        /\ all ≡ₚ filter (fun j => clerkId j = u) (rows s)
        /\ StronglySorted (ordered desc) all).
Proof.
  intros Hu. split.
  - intros Hf%first_call_fails. unfold getAllJobsForDownloadAction. signed_in Hu.
    unfold try_catch.
    rewrite findMany_fails by assumption. reflexivity.
  - intros Hserve. eexists. split; [|split].
    + rewrite (download_served u) by assumption. reflexivity.
    + rewrite merge_sort_Permutation.
      rewrite (list_filter_iff _ (fun j => clerkId j = u)); [reflexivity|].
      intros j. apply owner_where_spec.
    + apply query_sorted.
Qed.

(** ** Counting by key *)

Section TallyFacts.
Context {K : Type} `{EqDecision K}.
Implicit Types (k x : K) (l : list K) (acc : list (K * nat)).

Lemma tally_snoc l x : tally (l ++ [x]) = bump x (tally l).
Proof. unfold tally. now rewrite fold_left_app. Qed.

Lemma bump_keys x acc :
  (bump x acc).*1 = if decide (x ∈ acc.*1) then acc.*1 else acc.*1 ++ [x].
Proof.
  induction acc as [|[k n] acc IH].
  - reflexivity.
  - cbn [bump]. destruct (decide (k = x)) as [->|Hne].
    + rewrite decide_True by (rewrite fmap_cons; left). reflexivity.
    + rewrite !fmap_cons, IH. cbn [fst].
      destruct (decide (x ∈ acc.*1)) as [Hin|Hnin].
      * rewrite decide_True by now right. reflexivity.
      * rewrite decide_False; [reflexivity|].
        intros [->|Hin]%elem_of_cons; congruence.
Qed.

Lemma tally_keys_elem l k : k ∈ (tally l).*1 <-> k ∈ l.
Proof.
  induction l as [|x l IH] using rev_ind.
  - reflexivity.
  - rewrite tally_snoc, bump_keys, elem_of_app, list_elem_of_singleton.
    destruct (decide (x ∈ (tally l).*1)) as [Hin|Hnin].
    + rewrite IH. split; [tauto|]. intros [Hk| ->]; [assumption|].
      now apply IH.
    + rewrite elem_of_app, list_elem_of_singleton, IH. reflexivity.
Qed.

Lemma tally_keys_NoDup l : NoDup (tally l).*1.
Proof.
  induction l as [|x l IH] using rev_ind.
  - constructor.
  - rewrite tally_snoc, bump_keys.
    destruct (decide (x ∈ (tally l).*1)) as [Hin|Hnin]; [assumption|].
    apply NoDup_app. split; [assumption|]. split.
    + intros y Hy ->%list_elem_of_singleton. contradiction.
    + apply NoDup_singleton.
Qed.

(** After a bump every count has grown by one for the bumped key and by
    nothing for the others. *)
Lemma bump_counts x acc (g : K -> nat) :
  NoDup acc.*1 -> (x ∉ acc.*1 -> g x = 0%nat) ->
  Forall (fun e => e.2 = g e.1) acc ->
  Forall (fun e => e.2 = (g e.1 + if decide (e.1 = x) then 1 else 0)%nat)
    (bump x acc).
Proof.
  induction acc as [|[k n] acc IH]; simpl; intros Hnd Hx Hacc.
  - constructor; [|constructor]. simpl.
    rewrite Hx by apply not_elem_of_nil.
    destruct (decide (x = x)); [reflexivity|congruence].
  - apply NoDup_cons in Hnd as [Hk Hnd].
    apply Forall_cons in Hacc as [Hn Hacc]. simpl in Hn.
    destruct (decide (k = x)) as [->|Hne].
    + constructor.
      * simpl. destruct (decide (x = x)); [lia|congruence].
      * apply Forall_forall. intros [k' n'] Hin.
        rewrite Forall_forall in Hacc. pose proof (Hacc _ Hin) as Heq. simpl in *.
        destruct (decide (k' = x)) as [->|_]; [|lia].
        exfalso. apply Hk. apply list_elem_of_fmap. now exists (x, n').
    + constructor.
      * simpl. destruct (decide (k = x)); [congruence|lia].
      * apply IH; [assumption| |assumption].
        intros Hnin. apply Hx.
        intros [->|Hin]%elem_of_cons; [congruence|exact (Hnin Hin)].
Qed.

Lemma occurrences_snoc k l x :
  occurrences k (l ++ [x])
  = (occurrences k l + if decide (k = x) then 1 else 0)%nat.
Proof.
  unfold occurrences. rewrite filter_app, length_app. f_equal.
  rewrite filter_cons, filter_nil.
  destruct (decide (x = k)), (decide (k = x)); simpl; congruence.
Qed.

Lemma occurrences_none k l : k ∉ l -> occurrences k l = 0%nat.
Proof.
  intros Hk. unfold occurrences.
  destruct (filter (fun x => x = k) l) as [|y r] eqn:Hf; [reflexivity|].
  assert (Hy : y ∈ filter (fun x => x = k) l) by (rewrite Hf; left).
  apply list_elem_of_filter in Hy as [-> Hy]. contradiction.
Qed.

Lemma tally_counts l :
  Forall (fun e => e.2 = occurrences e.1 l) (tally l).
Proof.
  induction l as [|x l IH] using rev_ind.
  - constructor.
  - rewrite tally_snoc.
    eapply Forall_impl;
      [apply (bump_counts x (tally l) (fun k => occurrences k l))|].
    + apply tally_keys_NoDup.
    + intros Hx. apply occurrences_none. now rewrite <- tally_keys_elem.
    + exact IH.
    + intros [k n] Hn. simpl in *. now rewrite occurrences_snoc.
Qed.

Lemma entries_shape acc (g : K -> nat) :
  Forall (fun e => e.2 = g e.1) acc -> acc = map (fun k => (k, g k)) acc.*1.
Proof.
  induction 1 as [|[k n] t Hn _ IH]; [reflexivity|].
  cbn in *. now rewrite <- IH, Hn.
Qed.

Lemma tally_shape l :
  tally l = map (fun k => (k, occurrences k l)) (tally l).*1.
Proof. apply entries_shape, tally_counts. Qed.

(** Over a list in the order [R], the keys come out strictly ordered. *)
Lemma tally_keys_sorted (R : relation K) l :
  StronglySorted R l ->
  StronglySorted (fun a b => R a b /\ a <> b) (tally l).*1.
Proof.
  induction l as [|x l IH] using rev_ind; intros Hs.
  - constructor.
  - apply StronglySorted_app in Hs as (Hlx & Hl & _).
    rewrite tally_snoc, bump_keys.
    destruct (decide (x ∈ (tally l).*1)) as [Hin|Hnin]; [now apply IH|].
    apply StronglySorted_app_2.
    + intros a b Ha ->%list_elem_of_singleton. split.
      * apply Hlx; [now apply tally_keys_elem|left].
      * intros ->. contradiction.
    + now apply IH.
    + repeat constructor.
Qed.
End TallyFacts.

Section TallyMap.
Context {K K' : Type} `{EqDecision K} `{EqDecision K'} (f : K -> K').

Lemma bump_map x (acc : list (K * nat)) :
  (forall k, k ∈ acc.*1 -> f k = f x -> k = x) ->
  bump (f x) (map (fun e => (f e.1, e.2)) acc)
  = map (fun e => (f e.1, e.2)) (bump x acc).
Proof.
  induction acc as [|[k n] acc IH]; intros Hinj; [reflexivity|].
  cbn. destruct (decide (k = x)) as [->|Hne].
  - rewrite decide_True by reflexivity. reflexivity.
  - rewrite decide_False.
    + cbn. f_equal. apply IH. intros k' Hk'. apply Hinj. now right.
    + intros Heq. apply Hne, Hinj; [left|assumption].
Qed.

(** Counting under a relabelling that is injective on the keys met. *)
Lemma tally_map_inj (l : list K) :
  (forall a b, a ∈ l -> b ∈ l -> f a = f b -> a = b) ->
  tally (map f l) = map (fun e => (f e.1, e.2)) (tally l).
Proof.
  induction l as [|x l IH] using rev_ind; intros Hinj; [reflexivity|].
  rewrite map_app. cbn [map]. rewrite !tally_snoc, IH.
  - apply bump_map. intros k Hk. apply Hinj.
    + apply elem_of_app. left. now apply tally_keys_elem.
    + apply elem_of_app. right. left.
  - intros a b Ha Hb. apply Hinj; apply elem_of_app; now left.
Qed.
End TallyMap.

Lemma fold_left_bump_map {A K : Type} `{EqDecision K} (f : A -> K) (l : list A)
    (acc : list (K * nat)) :
  fold_left (fun acc a => bump (f a) acc) l acc
  = fold_left (fun acc k => bump k acc) (map f l) acc.
Proof. revert acc. induction l as [|a l IH]; intros acc; simpl; auto. Qed.

(** ** Statistics by status *)

Lemma stats_key_spec (k : string) :
  existsb (String.eqb k) stats_keys = true <-> In k stats_keys.
Proof.
  rewrite existsb_exists. split.
  - intros (x & Hx & ->%String.eqb_eq). assumption.
  - intros Hk. exists k. split; [assumption|apply String.eqb_refl].
Qed.

Lemma stats_fold_lookup (key : string) (groups : list (string * nat))
    (acc : gmap string nat) :
  In key stats_keys ->
  from_option (fun n => n) 0%nat (fold_left stats_step groups acc !! key)
  = (from_option (fun n => n) 0%nat (acc !! key) + weight key groups)%nat.
Proof.
  intros Hkey. revert acc.
  induction groups as [|[st n] groups IH]; intros acc; simpl; [lia|].
  rewrite IH. unfold stats_step. cbn [fst snd].
  destruct (existsb (String.eqb (toLowerCase st)) stats_keys) eqn:Hst.
  - destruct (decide (toLowerCase st = key)) as [->|Hne].
    + rewrite lookup_insert_eq. cbn [from_option]. lia.
    + rewrite lookup_insert_ne by assumption. lia.
  - destruct (decide (toLowerCase st = key)) as [Heq|Hne]; [|lia].
    apply stats_key_spec in Hkey. congruence.
Qed.

Lemma stats_fold_dom (groups : list (string * nat)) (acc : gmap string nat) :
  dom (fold_left stats_step groups acc)
  ⊆ dom acc ∪ (list_to_set stats_keys : gset string).
Proof.
  revert acc. induction groups as [|[st n] groups IH]; intros acc; cbn [fold_left].
  - apply union_subseteq_l.
  - etransitivity; [apply IH|]. unfold stats_step. cbn [fst snd].
    destruct (existsb (String.eqb (toLowerCase st)) stats_keys) eqn:Hst;
      [|set_solver].
    apply stats_key_spec, list_elem_of_In in Hst.
    intros k Hk. apply elem_of_union.
    apply elem_of_union in Hk. destruct Hk as [Hk|Hk]; [|right; exact Hk].
    rewrite dom_insert in Hk.
    apply elem_of_union in Hk. destruct Hk as [Hk|Hk]; [|left; exact Hk].
    apply elem_of_singleton in Hk. subst k. right.
    apply elem_of_list_to_set. exact Hst.
Qed.

Lemma weight_bump (key x : string) (acc : list (string * nat)) :
  weight key (bump x acc)
  = (weight key acc + if decide (toLowerCase x = key) then 1 else 0)%nat.
Proof.
  induction acc as [|[k n] acc IH]; simpl.
  - destruct (decide (toLowerCase x = key)); lia.
  - destruct (decide (k = x)) as [->|Hne]; simpl.
    + destruct (decide (toLowerCase x = key)); lia.
    + rewrite IH. lia.
Qed.

Lemma weight_tally (key : string) (l : list string) :
  weight key (tally l) = length (filter (fun x => toLowerCase x = key) l).
Proof.
  induction l as [|x l IH] using rev_ind; [reflexivity|].
  rewrite tally_snoc, weight_bump, IH, filter_app, length_app.
  f_equal. rewrite filter_cons, filter_nil.
  destruct (decide (toLowerCase x = key)); reflexivity.
Qed.

Lemma owner_status_count (u key : string) (l : list Job) :
  length (filter (fun x => toLowerCase x = key)
            (map status (filter (fun j => where_matches (owner_where u) j = true) l)))
  = length (filter (fun j => clerkId j = u /\ toLowerCase (status j) = key) l).
Proof.
  induction l as [|j l IH]; [reflexivity|].
  rewrite !filter_cons.
  pose proof (owner_where_spec u j) as Hw.
  destruct (decide (where_matches (owner_where u) j = true)) as [Hm|Hm].
  - cbn [map]. rewrite filter_cons.
    destruct (decide (toLowerCase (status j) = key)) as [Hk|Hk].
    + rewrite decide_True by tauto. simpl. now rewrite IH.
    + rewrite decide_False by tauto. exact IH.
  - rewrite decide_False by tauto. exact IH.
Qed.

(** C5. For a signed-in owner and a served store, [getStatsAction] returns
    an object whose keys are exactly pending, interview and declined; the
    count under each key is the number of the owner's records whose
    lower-cased status equals the key (0 when there is none), so a record
    whose lower-cased status is none of the three is counted nowhere. *)
Theorem stats_by_normalized_status (u : string) (s : Server) :
  authenticated u s -> storage_serves 1 s ->
  exists stats : gmap string nat,
    fst (getStatsAction s) = Ok stats
    /\ dom stats = (list_to_set stats_keys : gset string)
    /\ forall key, In key stats_keys ->
         stats !! key
         = Some (length (filter (fun j => clerkId j = u
                                          /\ toLowerCase (status j) = key) (rows s))).
Proof.
  intros Hu Hserve. eexists. split; [|split].
  - unfold getStatsAction. signed_in Hu.
    unfold try_catch, bind, prisma_job.groupBy.
    rewrite storage_call_serves by (apply Hserve; lia).
    rewrite rows_after_call. reflexivity.
  - apply set_eq. intros k. rewrite dom_union, elem_of_union.
    split.
    + intros [Hk|Hk].
      * apply stats_fold_dom in Hk. set_solver.
      * rewrite !dom_insert in Hk. unfold stats_keys. set_solver.
    + intros Hk. right. rewrite !dom_insert. unfold stats_keys in Hk. set_solver.
  - intros key Hkey.
    pose proof (stats_fold_lookup key
      (tally (map status
         (filter (fun j => where_matches (owner_where u) j = true) (rows s))))
      ∅ Hkey) as Hl.
    rewrite lookup_empty, weight_tally, owner_status_count in Hl. simpl in Hl.
    rewrite <- Hl. rewrite lookup_union.
    destruct (fold_left stats_step _ ∅ !! key) as [n|] eqn:Hn.
    + simpl in Hkey.
      destruct Hkey as [<-|[<-|[<-|[]]]]; reflexivity.
    + simpl in Hkey.
      destruct Hkey as [<-|[<-|[<-|[]]]]; reflexivity.
Qed.

(** ** Trend by month *)

Lemma digit_inj (a b : Z) :
  0 <= a <= 9 -> 0 <= b <= 9 -> dayjs.digit a = dayjs.digit b -> a = b.
Proof.
  intros Ha Hb Heq. unfold dayjs.digit in Heq.
  apply (f_equal nat_of_ascii) in Heq.
  rewrite !nat_ascii_embedding in Heq by lia. lia.
Qed.

Lemma YY_inj (y1 y2 : Z) : dayjs.YY y1 = dayjs.YY y2 -> y1 mod 100 = y2 mod 100.
Proof.
  unfold dayjs.YY. intros [= H1 H2].
  apply digit_inj in H1; [|Z.div_mod_to_equations; lia..].
  apply digit_inj in H2; [|Z.div_mod_to_equations; lia..].
  Z.div_mod_to_equations. lia.
Qed.

Lemma MMM_inj (m1 m2 : Z) (t1 t2 : string) :
  0 <= m1 <= 11 -> 0 <= m2 <= 11 ->
  dayjs.MMM m1 +:+ " " +:+ t1 = dayjs.MMM m2 +:+ " " +:+ t2 ->
  m1 = m2 /\ t1 = t2.
Proof.
  intros H1 H2.
  assert (C1 : m1 = 0 \/ m1 = 1 \/ m1 = 2 \/ m1 = 3 \/ m1 = 4 \/ m1 = 5 \/ m1 = 6
               \/ m1 = 7 \/ m1 = 8 \/ m1 = 9 \/ m1 = 10 \/ m1 = 11) by lia.
  assert (C2 : m2 = 0 \/ m2 = 1 \/ m2 = 2 \/ m2 = 3 \/ m2 = 4 \/ m2 = 5 \/ m2 = 6
               \/ m2 = 7 \/ m2 = 8 \/ m2 = 9 \/ m2 = 10 \/ m2 = 11) by lia.
  clear H1 H2.
  repeat (destruct C1 as [->|C1]); try subst m1;
    repeat (destruct C2 as [->|C2]); try subst m2;
    cbv; intros [= ?]; split; congruence.
Qed.

Lemma window_years (now d : Date) :
  valid_month now ->
  Date_le (dayjs.subtract_month 6 now) d -> Date_le d now ->
  year now - 1 <= year d <= year now.
Proof.
  unfold valid_month, Date_le. rewrite !Date_leb_spec. cbn [dayjs.subtract_month year].
  intros Hm Hlo Hhi.
  Z.div_mod_to_equations. lia.
Qed.

Lemma month_label_inj (now : Date) (a b : Job) (u : string) :
  valid_month now -> valid_month (createdAt a) -> valid_month (createdAt b) ->
  in_trend_window u now a -> in_trend_window u now b ->
  dayjs.format_MMM_YY (createdAt a) = dayjs.format_MMM_YY (createdAt b) ->
  month_of a = month_of b.
Proof.
  intros Hn Ha Hb (_ & Ha1 & Ha2) (_ & Hb1 & Hb2) Heq.
  pose proof (window_years now _ Hn Ha1 Ha2).
  pose proof (window_years now _ Hn Hb1 Hb2).
  unfold dayjs.format_MMM_YY, dayjs.month_label in Heq.
  apply MMM_inj in Heq as [Hm Hy]; [|assumption..].
  apply YY_inj in Hy. unfold month_of. f_equal; [|assumption].
  Z.div_mod_to_equations. lia.
Qed.

Lemma trend_where_spec (u : string) (now : Date) (j : Job) :
  where_matches
    (mkWhere (Some u) None None
       (Some (mkDateTimeFilter (dayjs.subtract_month 6 now) now))) j = true
  <-> in_trend_window u now j.
Proof.
  unfold where_matches, in_trend_window, Date_le.
  cbn [where_clerkId where_OR where_status where_createdAt gte lte].
  rewrite !andb_true_r, !andb_true_iff, String.eqb_eq. tauto.
Qed.

Lemma month_of_mono (a b : Job) :
  ordered asc a b -> month_not_after (month_of a) (month_of b).
Proof.
  unfold ordered, Date_le. rewrite Date_leb_spec.
  unfold month_not_after, month_of. cbn [fst snd]. lia.
Qed.

Lemma StronglySorted_map {A B} (f : A -> B) (R : relation A) (R' : relation B)
    (l : list A) :
  (forall a b, R a b -> R' (f a) (f b)) ->
  StronglySorted R l -> StronglySorted R' (map f l).
Proof.
  intros HR. induction 1 as [|x l Hs IH Hx]; simpl; constructor; [assumption|].
  apply Forall_forall. intros y (a & -> & Ha)%list_elem_of_fmap.
  rewrite Forall_forall in Hx. apply HR, Hx, Ha.
Qed.

Lemma occurrences_map {A K : Type} `{EqDecision K} (f : A -> K) (k : K)
    (l : list A) :
  occurrences k (map f l) = length (filter (fun a => f a = k) l).
Proof.
  unfold occurrences. induction l as [|a l IH]; [reflexivity|].
  cbn [map]. rewrite !filter_cons.
  destruct (decide (f a = k)); simpl; now rewrite IH.
Qed.

(** C6. For a signed-in owner and a served store, the chart action returns
    one entry for each calendar month in which the owner has a record
    created in the window from six months before now to now (both ends
    included), and no entry for any other month; the entries come in
    ascending order of month, each labelled MMM YY and carrying the number
    of such records of its month.  Records created before the window or
    after now are left out. *)
Theorem monthly_trend (u : string) (s : Server) :
  authenticated u s -> storage_serves 1 s ->
  valid_month (clock s) ->
  Forall (fun j => valid_month (createdAt j)) (rows s) ->
  let recent := filter (in_trend_window u (clock s)) (rows s) in
  exists months : list (Z * Z),
    fst (getChartsDataAction s)
    = Ok (map (fun ym => (dayjs.month_label ym.1 ym.2,
                          length (filter (fun j => month_of j = ym) recent)))
            months)
    /\ StronglySorted month_before months
    /\ forall ym, ym ∈ months <-> exists j, j ∈ recent /\ month_of j = ym.
Proof.
  intros Hu Hserve Hnow Hvalid recent.
  set (W := mkWhere (Some u) None None
              (Some (mkDateTimeFilter (dayjs.subtract_month 6 (clock s)) (clock s)))).
  set (js := merge_sort (precedes asc (hd (fun _ => 0) (ties s)))
               (filter (fun j => where_matches W j = true) (rows s))).
  assert (Hperm : js ≡ₚ recent).
  { unfold js. rewrite merge_sort_Permutation. unfold recent.
    rewrite (list_filter_iff _ (in_trend_window u (clock s))); [reflexivity|].
    intros j. apply trend_where_spec. }
  assert (Hin : forall j, j ∈ js ->
            in_trend_window u (clock s) j /\ valid_month (createdAt j)).
  { intros j Hj. rewrite Hperm in Hj. apply list_elem_of_filter in Hj as [Hw Hj].
    split; [assumption|]. rewrite Forall_forall in Hvalid. now apply Hvalid. }
  set (label := fun ym : Z * Z => dayjs.month_label ym.1 ym.2).
  exists (tally (map month_of js)).*1. split; [|split].
  - unfold getChartsDataAction. signed_in Hu.
    unfold bind at 1, dayjs.now.
    unfold try_catch, bind. fold W.
    rewrite findMany_served by ((apply Hserve; lia) || reflexivity || (simpl; lia)).
    cbn [window from_option Z.to_nat]. unfold ret. cbn [fst].
    rewrite skipn_O. fold js. f_equal.
    rewrite (fold_left_bump_map (fun job => dayjs.format_MMM_YY (createdAt job))).
    fold (tally (map (fun job => dayjs.format_MMM_YY (createdAt job)) js)).
    replace (map (fun job => dayjs.format_MMM_YY (createdAt job)) js)
      with (map label (map month_of js)) by (now rewrite map_map).
    rewrite tally_map_inj.
    + rewrite (tally_shape (map month_of js)) at 1. rewrite map_map. cbn [fst snd].
      apply map_ext. intros ym. f_equal.
      rewrite occurrences_map. apply Permutation_length.
      now rewrite Hperm.
    + intros a b (ja & -> & Ha)%list_elem_of_fmap (jb & -> & Hb)%list_elem_of_fmap Heq.
      destruct (Hin _ Ha) as [Hwa Hva], (Hin _ Hb) as [Hwb Hvb].
      exact (month_label_inj (clock s) ja jb u Hnow Hva Hvb Hwa Hwb Heq).
  - eapply StronglySorted_weaken;
      [|apply (tally_keys_sorted month_not_after), (StronglySorted_map month_of (ordered asc))].
    + intros [y1 m1] [y2 m2] [Hle Hne]. unfold month_not_after, month_before in *.
      cbn [fst snd] in *. destruct (decide (m1 = m2)) as [->|?]; [|lia].
      destruct (decide (y1 = y2)) as [->|?]; [congruence|lia].
    + apply month_of_mono.
    + apply query_sorted.
  - intros ym. rewrite tally_keys_elem, list_elem_of_fmap. split.
    + intros (j & -> & Hj). exists j. split; [now rewrite <- Hperm|reflexivity].
    + intros (j & Hj & <-). exists j. split; [reflexivity|now rewrite Hperm].
Qed.

(** ** Search *)

(** What the listing's where clause tests under a search term: the owner,
    the term as typed, read as a LIKE pattern, against the stored position
    and company, and the status filter when one is set. *)
Lemma search_where_spec (u term : string) (jobStatus : option string) (j : Job) :
  truthy term = true ->
  where_matches (list_where u (Some term) jobStatus) j = true
  <-> clerkId j = u
      /\ (like_contains term (position j) = true
          \/ like_contains term (company j) = true)
      /\ match jobStatus with
         | Some st =>
             if truthy st && negb (String.eqb st "all") then status j = st else True
         | None => True
         end.
Proof.
  intros Ht. unfold list_where. rewrite Ht.
  destruct jobStatus as [st|]; [destruct (truthy st && negb (String.eqb st "all"))|];
    unfold where_matches, owner_where;
    cbn [where_clerkId where_OR where_status where_createdAt existsb
         field_where_matches string_filter_matches query_mode contains];
    rewrite ?andb_true_r, orb_false_r, !andb_true_iff, orb_true_iff, !String.eqb_eq;
    tauto.
Qed.

(** C4 (failing input). Alice searches "engineer"; her record with position
    "Engineer" contains the term when case is ignored, yet the listing
    leaves it out: the search compares case-sensitively. *)
Theorem search_is_case_sensitive :
  clerkId Sample.engineer = "user_alice"
  /\ includes (toLowerCase "engineer") (toLowerCase (position Sample.engineer)) = true
  /\ fst (getAllJobsAction (Some "engineer") None None None Sample.world)
     = Ok (mkJobsPage [] 0 1 (Int 0))
  /\ exists r,
       fst (getAllJobsAction (Some "Engineer") None None None Sample.world) = Ok r
       /\ jobs r = [Sample.engineer].
Proof.
  split; [reflexivity|]. split; [reflexivity|]. split; [vm_compute; reflexivity|].
  eexists. split; vm_compute; reflexivity.
Qed.

(** ** The properties at the sample world *)

Lemma sample_signed_in : authenticated "user_alice" Sample.world.
Proof. split; reflexivity. Defined.

Lemma sample_serves n : storage_serves n Sample.world.
Proof. intros i _. discriminate. Defined.

Lemma ownership_isolation_witness :
  (fst (getSingleJobAction "job-2" Sample.world) = Throw (NextRedirect "/jobs")
   /\ rows (snd (getSingleJobAction "job-2" Sample.world)) = rows Sample.world)
  /\ (fst (updateJobAction "job-2" Sample.values_with_owner Sample.world) = Ok None
      /\ rows (snd (updateJobAction "job-2" Sample.values_with_owner Sample.world))
         = rows Sample.world)
  /\ (fst (deleteJobAction "job-2" Sample.world) = Ok None
      /\ rows (snd (deleteJobAction "job-2" Sample.world)) = rows Sample.world).
Proof.
  apply (ownership_isolation Sample.world Sample.designer "user_alice"
           Sample.values_with_owner).
  - apply (bool_decide_unpack _). vm_compute. exact I.
  - simpl. auto.
  - exact sample_signed_in.
  - discriminate.
Defined.

Lemma create_owner_is_caller_witness :
  Sample.values_with_owner !! "clerkId" = Some (VStr "user_mallory")
  /\ clerkId Sample.created = "user_alice"
  /\ rows Sample.world_after_create = rows Sample.world ++ [Sample.created].
Proof.
  split; [vm_compute; reflexivity|].
  apply (create_owner_is_caller "user_alice" Sample.values_with_owner Sample.world).
  - exact sample_signed_in.
  - vm_compute. reflexivity.
Defined.

Lemma safe_integer_small (z : Z) : (Z.abs z <=? 1000) = true -> safe_integer z.
Proof.
  intros H%Z.leb_le. unfold safe_integer.
  change (2 ^ 53) with 9007199254740992. lia.
Defined.

Lemma pagination_witness :
  exists r,
    fst (getAllJobsAction (Some "er") (Some "Interview") (Some 1) (Some 2)
           Sample.world) = Ok r
    /\ jobs r = [Sample.tester]
    /\ count r = 1%nat
    /\ totalPages r = Int 1.
Proof.
  pose proof (pagination "user_alice" (Some "er") (Some "Interview") 1 2
                Sample.world sample_signed_in (sample_serves 2)
                ltac:(lia) ltac:(lia)
                (safe_integer_small 2 eq_refl)
                (safe_integer_small 0 eq_refl)) as H.
  cbv zeta in H. destruct H as (r & t & newest_first & Hr & _).
  exists r. split; [exact Hr|].
  vm_compute in Hr. injection Hr as <-. repeat split; reflexivity.
Defined.

(** C3 (counterexample). Not every page size [P > 0] is served: Alice has
    three records and asks for page 1 with the page size 2^63, which the
    store does not take; the listing answers with its fallback, no record,
    count 0 and totalPages 0, where the claim promises the three records,
    count 3 and totalPages 1. *)
Lemma page_size_beyond_the_store :
  authenticated "user_alice" Sample.world
  /\ 0 < 2 ^ 63
  /\ filter (fun j => passes_filter "user_alice" None None j = true)
       (rows Sample.world)
     = [Sample.engineer; Sample.tester; Sample.archived]
  /\ fst (getAllJobsAction None None (Some 1) (Some (2 ^ 63)) Sample.world)
     = Ok (mkJobsPage [] 0 1 (Int 0)).
Proof.
  split; [split; reflexivity|]. split; [reflexivity|].
  split; vm_compute; reflexivity.
Qed.

Lemma stats_by_normalized_status_witness :
  exists stats : gmap string nat,
    fst (getStatsAction Sample.world) = Ok stats
    /\ stats !! "pending" = Some 1%nat
    /\ stats !! "interview" = Some 1%nat
    /\ stats !! "declined" = Some 0%nat
    /\ stats !! "on hold" = None.
Proof.
  destruct (stats_by_normalized_status "user_alice" Sample.world
              sample_signed_in (sample_serves 1)) as (stats & Hs & Hdom & Hcount).
  exists stats. split; [exact Hs|]. repeat split.
  - rewrite Hcount by (simpl; tauto). vm_compute. reflexivity.
  - rewrite Hcount by (simpl; tauto). vm_compute. reflexivity.
  - rewrite Hcount by (simpl; tauto). vm_compute. reflexivity.
  - apply not_elem_of_dom. rewrite Hdom. vm_compute. discriminate.
Defined.

Lemma monthly_trend_witness :
  exists months : list (Z * Z),
    fst (getChartsDataAction Sample.world)
    = Ok (map (fun ym => (dayjs.month_label ym.1 ym.2,
                          length (filter (fun j => month_of j = ym)
                                    [Sample.engineer; Sample.tester])))
            months)
    /\ StronglySorted month_before months
    /\ forall ym, ym ∈ months <->
          exists j, j ∈ [Sample.engineer; Sample.tester] /\ month_of j = ym.
Proof.
  apply (monthly_trend "user_alice" Sample.world
           sample_signed_in (sample_serves 1)).
  - vm_compute. split; discriminate.
  - repeat constructor; vm_compute; discriminate.
Defined.

Example chart_of_sample_world :
  fst (getChartsDataAction Sample.world) = Ok [("Oct 26", 1%nat); ("Nov 26", 1%nat)].
Proof. vm_compute. reflexivity. Qed.

Lemma sample_outage_signed_in : authenticated "user_alice" Sample.outage.
Proof. split; reflexivity. Defined.

Lemma sample_outage_fails n : storage_fails_within (S n) Sample.outage.
Proof. exists 0%nat. split; [lia|reflexivity]. Defined.

Lemma fail_soft_versus_fail_hard_witness :
  fst (getAllJobsAction (Some "Acme") (Some "pending") (Some 1) (Some 10) Sample.outage)
  = Ok (mkJobsPage [] 0 1 (Int 0))
  /\ fst (getStatsAction Sample.outage) = Throw (NextRedirect "/jobs")
  /\ fst (getChartsDataAction Sample.outage) = Throw (NextRedirect "/jobs").
Proof.
  destruct (fail_soft_versus_fail_hard "user_alice" (Some "Acme") (Some "pending")
              (Some 1) (Some 10) Sample.outage sample_outage_signed_in)
    as (Hlist & Hstats & Hchart).
  split; [|split].
  - apply Hlist, sample_outage_fails.
  - apply Hstats, sample_outage_fails.
  - apply Hchart, sample_outage_fails.
Defined.

Lemma download_fail_soft_witness :
  fst (getAllJobsForDownloadAction Sample.outage) = Ok []
  /\ exists all,
       fst (getAllJobsForDownloadAction Sample.world) = Ok all
       /\ all ≡ₚ [Sample.engineer; Sample.tester; Sample.archived]
       /\ StronglySorted (ordered desc) all.
Proof.
  split.
  - apply (download_fail_soft "user_alice" Sample.outage sample_outage_signed_in),
      sample_outage_fails.
  - apply (download_fail_soft "user_alice" Sample.world sample_signed_in),
      sample_serves.
Defined.

(** C8 (counterexample). Page 0 is not answered like page 1: Alice has three
    records, page 1 lists them, page 0 comes back empty with count 0. *)
Lemma page_zero_differs_from_page_one :
  fst (getAllJobsAction None None (Some 0) None Sample.world)
  <> fst (getAllJobsAction None None (Some 1) None Sample.world)
  /\ exists r, fst (getAllJobsAction None None (Some 1) None Sample.world) = Ok r
               /\ count r = 3%nat.
Proof.
  split; [vm_compute; discriminate|].
  eexists. split; vm_compute; reflexivity.
Qed.

Lemma page_below_one_not_clamped_witness :
  getAllJobsAction None None None None Sample.world
  = getAllJobsAction None None (Some 1) None Sample.world
  /\ fst (getAllJobsAction None None (Some 0) None Sample.world)
     = Ok (mkJobsPage [] 0 1 (Int 0)).
Proof.
  apply (page_below_one_not_clamped "user_alice" None None 0 None Sample.world).
  - exact sample_signed_in.
  - lia.
  - simpl. lia.
Defined.

(** C9 (counterexample). A form with an empty position and an unknown
    status has issues for both fields, yet [createJobAction] answers with a
    bare null and no validation error reaches the caller; a valid form
    during a storage outage is answered with the same null. *)
Lemma invalid_create_is_bare_null :
  schema_issues Sample.invalid_values = ["position"; "status"]
  /\ fst (createJobAction Sample.invalid_values Sample.world) = Ok None
  /\ ~ surfaces_field_messages Sample.invalid_values Sample.world
  /\ fst (createJobAction Sample.values_with_owner Sample.outage) = Ok None.
Proof.
  split; [vm_compute; reflexivity|].
  assert (H : fst (createJobAction Sample.invalid_values Sample.world) = Ok None)
    by (vm_compute; reflexivity).
  split; [exact H|]. split; [|vm_compute; reflexivity].
  intros (issues & _ & Hz). rewrite H in Hz. discriminate.
Qed.

Lemma create_invalid_returns_null_witness :
  createJobAction Sample.invalid_values Sample.world = (Ok None, Sample.world).
Proof.
  apply (create_invalid_returns_null "user_alice").
  - exact sample_signed_in.
  - vm_compute. discriminate.
Defined.

(** ** A remark on updates *)

(** [updateJobAction] spreads [values] into [data] without the override
    that [createJobAction] applies: an owner field in [values] is written
    to the row. *)
Example update_spreads_owner_field :
  exists job,
    fst (updateJobAction "job-1" (<["clerkId" := VStr "user_mallory"]> ∅) Sample.world)
    = Ok (Some job)
    /\ clerkId job = "user_mallory".
Proof. eexists. split; vm_compute; reflexivity. Qed.

(** C2 (counterexample). The owner is not set once and for all at
    creation, and not only from the session: Alice creates a record, which
    gets her as owner whatever the form says, and then updates it with
    values that carry an owner field; the stored record now belongs to the
    owner those values name. *)
Lemma owner_set_again_by_update :
  createJobAction Sample.values_with_owner Sample.world
  = (Ok (Some Sample.created), Sample.world_after_create)
  /\ clerkId Sample.created = "user_alice"
  /\ fst (updateJobAction (id Sample.created)
            (<["clerkId" := VStr "user_mallory"]> ∅) Sample.world_after_create)
     = Ok (Some (mkJob "uuid-0" "user_mallory" (Sample.noon 2026 10 2)
                   (Sample.noon 2026 10 2) "Developer" "Hooli" "Remote"
                   "pending" "full-time"))
  /\ map (fun j => (id j, clerkId j))
       (rows (snd (updateJobAction (id Sample.created)
                     (<["clerkId" := VStr "user_mallory"]> ∅)
                     Sample.world_after_create)))
     = [("job-1", "user_alice"); ("job-2", "user_bob"); ("job-3", "user_alice");
        ("job-4", "user_alice"); ("uuid-0", "user_mallory")].
Proof.
  split; [vm_compute; reflexivity|]. split; [reflexivity|].
  split; vm_compute; reflexivity.
Qed.

(** * Further properties of the actions and scripts *)

(** ** Callers without a session *)

Lemma authenticate_rejects (s : Server) :
  anonymous s -> authenticateAndRedirect s = (Throw (NextRedirect "/"), s).
Proof.
  unfold authenticateAndRedirect. intros [Hs|Hs]; rewrite Hs; reflexivity.
Qed.

Ltac signed_out H :=
  unfold bind at 1; rewrite (authenticate_rejects _ H); reflexivity.

(** X1. Without a session every action ends in the redirect to / before
    any storage call: the world, fault schedule included, is as it was. *)
Theorem anonymous_is_redirected (s : Server) (values : gmap string Value)
    (i : string) (search jobStatus : option string) (page limit : option Z) :
  anonymous s ->
  createJobAction values s = (Throw (NextRedirect "/"), s)
  /\ getAllJobsAction search jobStatus page limit s = (Throw (NextRedirect "/"), s)
  /\ deleteJobAction i s = (Throw (NextRedirect "/"), s)
  /\ getSingleJobAction i s = (Throw (NextRedirect "/"), s)
  /\ updateJobAction i values s = (Throw (NextRedirect "/"), s)
  /\ getStatsAction s = (Throw (NextRedirect "/"), s)
  /\ getChartsDataAction s = (Throw (NextRedirect "/"), s)
  /\ getAllJobsForDownloadAction s = (Throw (NextRedirect "/"), s).
Proof.
  intros Ha. repeat split.
  - unfold createJobAction. signed_out Ha.
  - unfold getAllJobsAction. signed_out Ha.
  - unfold deleteJobAction. signed_out Ha.
  - unfold getSingleJobAction. signed_out Ha.
  - unfold updateJobAction. signed_out Ha.
  - unfold getStatsAction. signed_out Ha.
  - unfold getChartsDataAction. signed_out Ha.
  - unfold getAllJobsForDownloadAction. signed_out Ha.
Qed.

Lemma anonymous_is_redirected_witness :
  createJobAction Imported.form Imported.signed_out
  = (Throw (NextRedirect "/"), Imported.signed_out)
  /\ deleteJobAction "job-7" Imported.signed_out
     = (Throw (NextRedirect "/"), Imported.signed_out).
Proof.
  destruct (anonymous_is_redirected Imported.signed_out Imported.form "job-7"
              None None None None) as (H1 & _ & H3 & _).
  - left. reflexivity.
  - split; [exact H1|exact H3].
Defined.

(** ** Creation, in full *)

Lemma create_inv_full data s job s' :
  prisma_job.create data s = (Ok job, s') ->
  id_taken (id job) (rows s) = false
  /\ session s' = session s
  /\ get_str data "position" = Some (position job)
  /\ get_str data "status" = Some (status job).
Proof.
  unfold prisma_job.create, storage_call.
  destruct (faults s) as [|[] fs]; [|discriminate|];
    (cbn [set_faults parseDateTime];
     destruct (data_valid (parseDateTime s) data); simpl; [|discriminate];
     destruct (get_str data "clerkId") as [u|]; [|discriminate];
     destruct (get_str data "position") as [p|]; [|discriminate];
     destruct (get_str data "company") as [c|]; [|discriminate];
     destruct (get_str data "location") as [l|]; [|discriminate];
     destruct (get_str data "status") as [st|]; [|discriminate];
     destruct (get_str data "mode") as [m|]; [|discriminate];
     destruct (get_str data "id") as [i|]; simpl;
     destruct (id_taken _ _) eqn:Hid; try discriminate;
     intros [= <- <-]; repeat split; assumption).
Qed.

Lemma createJobAction_inv u values s job s' :
  authenticated u s ->
  createJobAction values s = (Ok (Some job), s') ->
  prisma_job.create (<["clerkId" := VStr u]> values) s = (Ok job, s').
Proof.
  intros Hu. unfold createJobAction. signed_in Hu.
  unfold try_catch, bind at 1.
  unfold createAndEditJobSchema_parse.
  destruct (schema_issues values); [|unfold throw; simpl; discriminate].
  unfold ret at 1, bind.
  destruct (prisma_job.create _ s) as [[j|e] s1] eqn:Hc; [|unfold ret; discriminate].
  unfold ret. now intros [= <- <-].
Qed.

Lemma find_app_fresh (l : list Job) (job : Job) (u : string) :
  id_taken (id job) l = false -> clerkId job = u ->
  List.find (key_matches (id job) u) (l ++ [job]) = Some job.
Proof.
  intros Hfresh Hu. induction l as [|x l IH]; simpl in *.
  - unfold key_matches. rewrite String.eqb_refl, Hu, String.eqb_refl. reflexivity.
  - apply orb_false_iff in Hfresh as [Hx Hl].
    unfold key_matches at 1. rewrite Hx. simpl. now apply IH.
Qed.

(** X2. A record that [createJobAction] has just returned is read back by
    [getSingleJobAction] under its id, by the same caller in the world the
    creation left, when the storage layer serves the read. *)
Theorem create_then_read (u : string) (values : gmap string Value)
    (s s' : Server) (job : Job) :
  authenticated u s ->
  createJobAction values s = (Ok (Some job), s') ->
  storage_serves 1 s' ->
  fst (getSingleJobAction (id job) s') = Ok (Some job).
Proof.
  intros Hu Hc Hserve.
  apply (createJobAction_inv u) in Hc; [|assumption].
  pose proof (create_inv _ _ _ _ Hc) as [Hown Hrows].
  rewrite get_str_insert in Hown. injection Hown as Hown.
  apply create_inv_full in Hc as (Hfresh & Hsess & _).
  assert (Hu' : authenticated u s').
  { destruct Hu as [H1 H2]. split; [congruence|assumption]. }
  unfold getSingleJobAction. signed_in Hu'.
  unfold try_catch, bind, prisma_job.findUnique.
  rewrite storage_call_serves by (apply Hserve; lia).
  rewrite rows_after_call, Hrows, find_app_fresh by congruence. reflexivity.
Qed.

Lemma get_str_Some (data : gmap string Value) k v :
  get_str data k = Some v <-> data !! k = Some (VStr v).
Proof.
  unfold get_str. destruct (data !! k) as [[t|d]|]; split; congruence.
Qed.

Lemma get_str_insert_ne (data : gmap string Value) k k' v :
  k <> k' -> get_str (<[k := v]> data) k' = get_str data k'.
Proof. intros Hne. unfold get_str. now rewrite lookup_insert_ne. Qed.

Lemma get_date_insert_ne parse (data : gmap string Value) k k' v :
  k <> k' -> get_date parse (<[k := v]> data) k' = get_date parse data k'.
Proof. intros Hne. unfold get_date. now rewrite lookup_insert_ne. Qed.

Lemma check_text_nil k values :
  check_text k values = [] -> exists v, get_str values k = Some v.
Proof.
  unfold check_text. destruct (get_str values k) as [v|]; [|discriminate].
  intros _. now exists v.
Qed.

Lemma check_enum_nil k allowed values :
  check_enum k allowed values = [] -> exists v, get_str values k = Some v.
Proof.
  unfold check_enum. destruct (get_str values k) as [v|]; [|discriminate].
  intros _. now exists v.
Qed.

Lemma data_valid_forall parse (data : gmap string Value) :
  (forall k v, data !! k = Some v -> column_accepts parse k v = true) ->
  data_valid parse data = true.
Proof.
  intros H. unfold data_valid. apply forallb_forall. intros [k v] Hin.
  apply list_elem_of_In, elem_of_map_to_list in Hin. now apply H.
Qed.

Lemma uuids_after_call s :
  uuids (after_call s) = uuids s /\ uuid_next (after_call s) = uuid_next s.
Proof. unfold after_call. now destruct (faults s). Qed.

(** X3. A form that passes the schema and carries nothing but the form
    fields (an owner field apart) is created whenever the storage call is
    served and the fresh uuid is free: the action returns the record with
    the form's five values, the caller as owner, the uuid as id and
    [createdAt = updatedAt = now]. *)
Theorem valid_form_is_created (u : string) (values : gmap string Value)
    (s : Server) :
  authenticated u s -> storage_serves 1 s ->
  schema_issues values = [] ->
  (forall k, is_Some (values !! k) -> In k form_fields \/ k = "clerkId") ->
  id_taken (uuids s (uuid_next s)) (rows s) = false ->
  exists p c l st m,
    get_str values "position" = Some p
    /\ get_str values "company" = Some c
    /\ get_str values "location" = Some l
    /\ get_str values "status" = Some st
    /\ get_str values "mode" = Some m
    /\ fst (createJobAction values s)
       = Ok (Some (mkJob (uuids s (uuid_next s)) u (clock s) (clock s) p c l st m)).
Proof.
  intros Hu Hserve Hschema Hkeys Hfresh.
  pose proof Hschema as Hparse.
  unfold schema_issues in Hschema.
  apply app_eq_nil in Hschema as [(p & Hp)%check_text_nil Hschema].
  apply app_eq_nil in Hschema as [(c & Hc)%check_text_nil Hschema].
  apply app_eq_nil in Hschema as [(l & Hl)%check_text_nil Hschema].
  apply app_eq_nil in Hschema as [(st & Hst)%check_enum_nil (m & Hm)%check_enum_nil].
  exists p, c, l, st, m. repeat (split; [assumption|]).
  assert (Hvalid : forall parse,
            data_valid parse (<["clerkId" := VStr u]> values) = true).
  { intros parse. apply data_valid_forall. intros k v Hkv.
    destruct (decide (k = "clerkId")) as [->|Hne].
    - rewrite lookup_insert_eq in Hkv. injection Hkv as <-. reflexivity.
    - rewrite lookup_insert_ne in Hkv by congruence.
      destruct (Hkeys k) as [Hin|?]; [now exists v| |contradiction].
      apply get_str_Some in Hp, Hc, Hl, Hst, Hm. simpl in Hin.
      destruct Hin as [<-|[<-|[<-|[<-|[<-|[]]]]]];
        match goal with
        | H : values !! ?k = Some (VStr _) |- _ =>
            rewrite H in Hkv; injection Hkv as <-; reflexivity
        end. }
  assert (Hnone : forall k, ~ In k form_fields -> k <> "clerkId" -> values !! k = None).
  { intros k Hk Hk'. destruct (values !! k) eqn:E; [|reflexivity].
    destruct (Hkeys k) as [?|?]; [rewrite E; eauto|contradiction..]. }
  assert (Hid : values !! "id" = None)
    by (apply Hnone; [simpl; intuition discriminate|discriminate]).
  assert (Hca : values !! "createdAt" = None)
    by (apply Hnone; [simpl; intuition discriminate|discriminate]).
  assert (Hua : values !! "updatedAt" = None)
    by (apply Hnone; [simpl; intuition discriminate|discriminate]).
  unfold createJobAction. signed_in Hu.
  unfold try_catch, bind at 1, createAndEditJobSchema_parse.
  rewrite Hparse. unfold ret at 1, bind, prisma_job.create.
  rewrite storage_call_serves by (apply Hserve; lia).
  rewrite Hvalid. cbn [negb].
  rewrite get_str_insert, !get_str_insert_ne, !get_date_insert_ne by discriminate.
  rewrite Hp, Hc, Hl, Hst, Hm.
  unfold get_str at 1. rewrite Hid.
  unfold get_date. rewrite Hca, Hua.
  cbn [bump_uuid rows clock from_option].
  destruct (uuids_after_call s) as [-> ->].
  rewrite rows_after_call, clock_after_call, Hfresh. reflexivity.
Qed.

(** ** The primary key under the mutations *)

Lemma id_taken_spec (i : string) (l : list Job) :
  id_taken i l = false <-> ~ In i (map id l).
Proof.
  unfold id_taken. induction l as [|x l IH]; simpl; [tauto|].
  rewrite orb_false_iff, IH, String.eqb_neq. intuition congruence.
Qed.

Lemma primary_key_snoc (l : list Job) (job : Job) :
  primary_key l -> id_taken (id job) l = false -> primary_key (l ++ [job]).
Proof.
  unfold primary_key. intros Hnd Hfresh%id_taken_spec.
  rewrite map_app. apply NoDup_app. split; [assumption|]. split.
  - intros i Hi ->%list_elem_of_singleton. apply Hfresh. now apply list_elem_of_In.
  - apply NoDup_singleton.
Qed.

Lemma primary_key_filter (p : Job -> bool) (l : list Job) :
  primary_key l -> primary_key (List.filter p l).
Proof.
  unfold primary_key. induction l as [|x l IH]; simpl; [auto|].
  intros [Hx Hnd]%NoDup_cons. destruct (p x); [|auto].
  simpl. apply NoDup_cons. split; [|auto].
  intros Hin. apply Hx. apply list_elem_of_In in Hin.
  apply in_map_iff in Hin as (j & Hj & Hin%filter_In).
  apply list_elem_of_In, in_map_iff. exists j. tauto.
Qed.

Lemma primary_key_replace (key : Job -> bool) (i : string) (new : Job)
    (l : list Job) :
  primary_key l ->
  (forall j, In j l -> key j = true -> id j = i) ->
  (id new = i \/ ~ In (id new) (map id l)) ->
  primary_key (map (fun j => if key j then new else j) l).
Proof.
  unfold primary_key. induction l as [|x l IH]; simpl; [auto|].
  intros [Hx Hnd]%NoDup_cons Hkey Hnew.
  assert (Hx' : ~ In (id x) (map id l)) by (now rewrite <- list_elem_of_In).
  apply NoDup_cons. destruct (key x) eqn:Hkx.
  - assert (Hnone : forall j, In j l -> key j = false).
    { intros j Hj. destruct (key j) eqn:Hkj; [|reflexivity].
      exfalso. apply Hx'. rewrite (Hkey x) by auto.
      rewrite <- (Hkey j) by auto. now apply in_map. }
    assert (Hsame : map (fun j => if key j then new else j) l = l).
    { rewrite <- (map_id l) at 2. apply map_ext_in.
      intros j Hj. now rewrite (Hnone j Hj). }
    rewrite Hsame. split; [|assumption].
    rewrite list_elem_of_In. destruct Hnew as [Hn|Hn].
    + rewrite Hn, <- (Hkey x) by auto. assumption.
    + tauto.
  - split.
    + rewrite list_elem_of_In, map_map, in_map_iff.
      intros (j & Hid & Hj). destruct (key j) eqn:Hkj.
      * destruct Hnew as [Hn|Hn].
        -- apply Hx'. rewrite <- Hid, Hn, <- (Hkey j) by auto. now apply in_map.
        -- apply Hn. left. congruence.
      * apply Hx'. rewrite <- Hid. now apply in_map.
    + apply IH; [assumption|auto|]. destruct Hnew as [Hn|Hn]; [now left|right; tauto].
Qed.

Lemma authenticate_cases (s : Server) :
  (exists u, authenticateAndRedirect s = (Ok u, s))
  \/ authenticateAndRedirect s = (Throw (NextRedirect "/"), s).
Proof.
  unfold authenticateAndRedirect.
  destruct (session s) as [u|]; [destruct (truthy u)|]; eauto.
Qed.

Lemma create_keeps_key data s :
  primary_key (rows s) -> primary_key (rows (snd (prisma_job.create data s))).
Proof.
  intros Hpk. unfold prisma_job.create, storage_call.
  destruct (faults s) as [|[] fs]; [|assumption|];
    (cbn [set_faults parseDateTime];
     destruct (data_valid (parseDateTime s) data); simpl; [|assumption];
     destruct (get_str data "clerkId") as [u|]; [|assumption];
     destruct (get_str data "position") as [p|]; [|assumption];
     destruct (get_str data "company") as [c|]; [|assumption];
     destruct (get_str data "location") as [l|]; [|assumption];
     destruct (get_str data "status") as [st|]; [|assumption];
     destruct (get_str data "mode") as [m|]; [|assumption];
     destruct (get_str data "id") as [i|]; simpl;
     destruct (id_taken _ _) eqn:Hid; simpl; try assumption;
     apply primary_key_snoc; assumption).
Qed.

Lemma update_keeps_key i u data s :
  primary_key (rows s) -> primary_key (rows (snd (prisma_job.update i u data s))).
Proof.
  intros Hpk. unfold prisma_job.update, storage_call.
  assert (Hop : forall s0, rows s0 = rows s ->
    primary_key (rows (snd
      (if negb (data_valid (parseDateTime s0) data)
       then (Throw (PrismaError "PrismaClientValidationError"), s0)
       else
         match List.find (key_matches i u) (rows s0) with
         | None => (@Throw Job (PrismaError "P2025"), s0)
         | Some old =>
             let new := apply_data (parseDateTime s0) data (clock s0) old in
             if negb (String.eqb (id new) (id old)) && id_taken (id new) (rows s0)
             then (Throw (PrismaError "P2002"), s0)
             else (Ok new,
                   set_rows (map (fun j => if key_matches i u j then new else j)
                               (rows s0)) s0)
         end)))).
  { intros s0 Hrows. rewrite Hrows.
    destruct (data_valid _ data); simpl; [|now rewrite Hrows].
    destruct (List.find (key_matches i u) (rows s)) as [old|] eqn:Hfind;
      simpl; [|now rewrite Hrows].
    apply find_some in Hfind as [Hold Hk].
    assert (Hidold : id old = i).
    { unfold key_matches in Hk. apply andb_true_iff in Hk as [Hk _].
      now apply String.eqb_eq. }
    destruct (negb _ && id_taken _ _) eqn:Hc; simpl; [now rewrite Hrows|].
    apply (primary_key_replace _ i); [assumption| |].
    - intros j _ Hkj. unfold key_matches in Hkj.
      apply andb_true_iff in Hkj as [Hkj _]. now apply String.eqb_eq.
    - apply andb_false_iff in Hc as [Hc|Hc].
      + left. apply negb_false_iff, String.eqb_eq in Hc. simpl. congruence.
      + right. now apply id_taken_spec. }
  destruct (faults s) as [|[] fs]; [apply Hop; reflexivity|assumption|apply Hop; reflexivity].
Qed.

Lemma delete_keeps_key i u s :
  primary_key (rows s) -> primary_key (rows (snd (prisma_job.delete i u s))).
Proof.
  intros Hpk. unfold prisma_job.delete, storage_call.
  destruct (faults s) as [|[] fs]; simpl; try assumption;
    destruct (List.find _ _); simpl; try assumption;
    now apply primary_key_filter.
Qed.

(** X4. The three mutations keep [id] a primary key of the table, whatever
    their arguments and whether they succeed, fail or redirect. *)
Theorem mutations_keep_primary_key (s : Server) (values : gmap string Value)
    (i : string) :
  primary_key (rows s) ->
  primary_key (rows (snd (createJobAction values s)))
  /\ primary_key (rows (snd (updateJobAction i values s)))
  /\ primary_key (rows (snd (deleteJobAction i s))).
Proof.
  intros Hpk.
  destruct (authenticate_cases s) as [[u Hu]|Hu]; repeat split.
  - unfold createJobAction, bind at 1. rewrite Hu.
    unfold try_catch, bind, createAndEditJobSchema_parse.
    destruct (schema_issues values); [|assumption].
    unfold ret at 1.
    pose proof (create_keeps_key (<["clerkId" := VStr u]> values) s Hpk) as Hc.
    destruct (prisma_job.create _ s) as [[j|e] s1]; exact Hc.
  - unfold updateJobAction, bind at 1. rewrite Hu. unfold try_catch, bind.
    pose proof (update_keeps_key i u values s Hpk) as Hc.
    destruct (prisma_job.update i u values s) as [[j|e] s1]; exact Hc.
  - unfold deleteJobAction, bind at 1. rewrite Hu. unfold try_catch, bind.
    pose proof (delete_keeps_key i u s Hpk) as Hc.
    destruct (prisma_job.delete i u s) as [[j|e] s1]; exact Hc.
  - unfold createJobAction, bind at 1. now rewrite Hu.
  - unfold updateJobAction, bind at 1. now rewrite Hu.
  - unfold deleteJobAction, bind at 1. now rewrite Hu.
Qed.

(** ** The owner's own records *)

Lemma own_key_spec (l : list Job) (r j : Job) :
  primary_key l -> In r l -> In j l ->
  key_matches (id r) (clerkId r) j = true <-> id j = id r.
Proof.
  intros Hpk Hr Hj. unfold key_matches.
  rewrite andb_true_iff, !String.eqb_eq. split; [tauto|].
  intros Hid. split; [assumption|].
  now rewrite (primary_key_inj l j r Hpk Hj Hr Hid).
Qed.

Lemma find_own_key (l : list Job) (r : Job) :
  primary_key l -> In r l ->
  List.find (key_matches (id r) (clerkId r)) l = Some r.
Proof.
  intros Hpk Hr.
  destruct (List.find (key_matches (id r) (clerkId r)) l) as [j|] eqn:Hf.
  - apply find_some in Hf as [Hj Hk].
    apply (own_key_spec l r j Hpk Hr Hj) in Hk.
    now rewrite (primary_key_inj l j r Hpk Hj Hr Hk).
  - exfalso. pose proof (find_none _ _ Hf r Hr) as Hk.
    rewrite (proj2 (own_key_spec l r r Hpk Hr Hr) eq_refl) in Hk. discriminate.
Qed.

Lemma find_all_false (p : Job -> bool) (l : list Job) :
  (forall j, In j l -> p j = false) -> List.find p l = None.
Proof.
  induction l as [|x l IH]; simpl; intros H; [reflexivity|].
  rewrite (H x) by auto. apply IH. auto.
Qed.

Lemma filter_other_ids (p : Job -> bool) (i : string) (l : list Job) :
  (forall j, In j l -> p j = true <-> id j = i) ->
  List.filter (fun j => negb (p j)) l = filter (fun j => id j <> i) l.
Proof.
  induction l as [|x l IH]; intros H; [reflexivity|].
  simpl. rewrite filter_cons, IH by (intros j Hj; apply H; now right).
  pose proof (H x (or_introl eq_refl)) as Hx.
  destruct (p x); simpl.
  - rewrite decide_False; [reflexivity|]. intros Hne. apply Hne. now apply Hx.
  - rewrite decide_True; [reflexivity|]. intros Hid. apply Hx in Hid. discriminate.
Qed.

(** X5. The owner's delete of a stored record succeeds when the storage
    call is served: it returns the record, removes the row with that id and
    no other, and a later read of the id by the same caller ends in the
    redirect to /jobs. *)
Theorem owner_deletes_own_record (u : string) (s : Server) (r : Job) :
  authenticated u s -> storage_serves 1 s ->
  primary_key (rows s) -> In r (rows s) -> clerkId r = u ->
  exists s',
    deleteJobAction (id r) s = (Ok (Some r), s')
    /\ rows s' = filter (fun j => id j <> id r) (rows s)
    /\ fst (getSingleJobAction (id r) s') = Throw (NextRedirect "/jobs").
Proof.
  intros Hu Hserve Hpk Hr Hown. subst u.
  pose proof (find_own_key _ _ Hpk Hr) as Hfind.
  eexists. split; [|split].
  - unfold deleteJobAction. signed_in Hu.
    unfold try_catch, bind, prisma_job.delete.
    rewrite storage_call_serves by (apply Hserve; lia).
    rewrite rows_after_call, Hfind. reflexivity.
  - cbn [rows set_rows]. rewrite ?rows_after_call.
    apply filter_other_ids. intros j Hj. now apply (own_key_spec (rows s)).
  - set (s' := set_rows _ _).
    assert (Hu' : authenticated (clerkId r) s').
    { destruct Hu as [H1 H2]. split; [|assumption].
      unfold s', set_rows, after_call. cbn [session].
      destruct (faults s); exact H1. }
    assert (Hnone : List.find (key_matches (id r) (clerkId r)) (rows s') = None).
    { apply find_all_false. intros j Hj. unfold s' in Hj. cbn [rows set_rows] in Hj.
      rewrite ?rows_after_call in Hj.
      apply filter_In in Hj as [Hj Hk]. now apply negb_true_iff in Hk. }
    unfold getSingleJobAction. signed_in Hu'.
    unfold try_catch, bind, prisma_job.findUnique, storage_call.
    clearbody s'.
    destruct (faults s') as [|[] fs]; cbn [rows set_faults]; rewrite ?Hnone; reflexivity.
Qed.

Lemma form_field_accepts parse k t :
  In k form_fields -> column_accepts parse k (VStr t) = true.
Proof.
  simpl. intros [<-|[<-|[<-|[<-|[<-|[]]]]]]; reflexivity.
Qed.

(** X6. The owner's update with values drawn from the form fields, any
    subset of them and whether or not they would pass the schema, succeeds
    when the storage call is served: each field given replaces the stored
    one and the fields not given stay, [id], [clerkId] and [createdAt]
    stay, [updatedAt] becomes now when at least one field is given and
    stays when none is, and every other row is untouched. *)
Theorem owner_update_keeps_identity (u : string) (s : Server) (r : Job)
    (values : gmap string Value) :
  authenticated u s -> storage_serves 1 s ->
  primary_key (rows s) -> In r (rows s) -> clerkId r = u ->
  (forall k v, values !! k = Some v -> In k form_fields /\ exists t, v = VStr t) ->
  exists r' s',
    updateJobAction (id r) values s = (Ok (Some r'), s')
    /\ id r' = id r /\ clerkId r' = clerkId r
    /\ createdAt r' = createdAt r
    /\ updatedAt r' = (if decide (values = ∅) then updatedAt r else clock s)
    /\ (forall k, In k form_fields ->
          form_value k r' = match values !! k with
                            | Some (VStr t) => t
                            | _ => form_value k r
                            end)
    /\ rows s' = map (fun j => if decide (id j = id r) then r' else j) (rows s).
Proof.
  intros Hu Hserve Hpk Hr Hown Hform. subst u.
  set (r' := apply_data (parseDateTime s) values (clock s) r).
  pose proof (find_own_key _ _ Hpk Hr) as Hfind.
  assert (Hvalid : data_valid (parseDateTime s) values = true).
  { apply data_valid_forall. intros k v Hkv.
    destruct (Hform k v Hkv) as (Hk & t & ->). now apply form_field_accepts. }
  assert (Hnone : forall k, ~ In k form_fields -> values !! k = None).
  { intros k Hk. destruct (values !! k) as [v|] eqn:E; [|reflexivity].
    destruct (Hform k v E) as [Hin _]. contradiction. }
  assert (Hid : get_str values "id" = None).
  { unfold get_str. rewrite Hnone; [reflexivity|simpl; intuition discriminate]. }
  assert (Hcl : get_str values "clerkId" = None).
  { unfold get_str. rewrite Hnone; [reflexivity|simpl; intuition discriminate]. }
  assert (Hca : get_date (parseDateTime s) values "createdAt" = None).
  { unfold get_date. rewrite Hnone; [reflexivity|simpl; intuition discriminate]. }
  assert (Hua : get_date (parseDateTime s) values "updatedAt" = None).
  { unfold get_date. rewrite Hnone; [reflexivity|simpl; intuition discriminate]. }
  assert (Hr'id : id r' = id r) by (unfold r'; simpl; now rewrite Hid).
  exists r'. eexists. split; [|repeat split].
  - unfold updateJobAction. signed_in Hu.
    unfold try_catch, bind, prisma_job.update.
    rewrite storage_call_serves by (apply Hserve; lia).
    rewrite parseDateTime_after_call, Hvalid, rows_after_call, clock_after_call, Hfind.
    cbn [negb]. fold r'. rewrite Hr'id, String.eqb_refl. reflexivity.
  - exact Hr'id.
  - unfold r'. simpl. now rewrite Hcl.
  - unfold r'. simpl. now rewrite Hca.
  - unfold r'. simpl. now rewrite Hua.
  - intros k Hk. unfold r', apply_data, get_str. simpl in Hk.
    destruct Hk as [<-|[<-|[<-|[<-|[<-|[]]]]]]; cbn [form_value String.eqb Ascii.eqb
      Bool.eqb andb position company location status mode];
      match goal with
      | |- context [values !! ?f] => destruct (values !! f) as [[t|d]|]; reflexivity
      end.
  - cbn [rows set_rows]. rewrite ?rows_after_call. apply map_ext_in.
    intros j Hj. pose proof (own_key_spec _ r j Hpk Hr Hj) as Hk.
    destruct (key_matches (id r) (clerkId r) j).
    + rewrite decide_True; [reflexivity|]. now apply Hk.
    + rewrite decide_False; [reflexivity|]. intros Hid'. apply Hk in Hid'. discriminate.
Qed.

(** ** The listing, for all arguments *)

Lemma In_window (k : Z) (t : option Z) (l : list Job) (j : Job) :
  In j (window k t l) -> In j l.
Proof.
  assert (Htake : forall n (l' : list Job), In j (firstn n l') -> In j l').
  { intros n l' H. rewrite <- (firstn_skipn n l'). apply in_or_app. now left. }
  assert (Hdrop : forall n (l' : list Job), In j (skipn n l') -> In j l').
  { intros n l' H. rewrite <- (firstn_skipn n l'). apply in_or_app. now right. }
  unfold window. destruct t as [t|]; [destruct (0 <=? t)|].
  - intros H. eapply Hdrop, Htake, H.
  - intros H%in_rev. apply in_rev. eapply Hdrop, Htake, H.
  - apply Hdrop.
Qed.

Lemma length_window (k t : Z) (l : list Job) :
  Z.of_nat (length (window k (Some t) l)) <= Z.abs t.
Proof.
  unfold window. destruct (0 <=? t) eqn:Ht.
  - rewrite length_take. apply Z.leb_le in Ht. lia.
  - rewrite length_rev, length_take. apply Z.leb_gt in Ht. lia.
Qed.

Lemma list_where_owner (u : string) (search jobStatus : option string) (j : Job) :
  where_matches (list_where u search jobStatus) j = true -> clerkId j = u.
Proof.
  unfold list_where.
  destruct search as [term|]; [destruct (truthy term)|];
    (destruct jobStatus as [st|];
     [destruct (truthy st && negb (String.eqb st "all"))|]);
    unfold where_matches; cbn [where_clerkId owner_where];
    rewrite !andb_true_iff, String.eqb_eq; tauto.
Qed.

Lemma list_where_status (u st : string) (search : option string) (j : Job) :
  truthy st = true -> st <> "all" ->
  where_matches (list_where u search (Some st)) j = true -> status j = st.
Proof.
  intros Ht Hall%String.eqb_neq. unfold list_where. rewrite Ht, Hall. cbn [negb andb].
  destruct search as [term|]; [destruct (truthy term)|];
    unfold where_matches; cbn [where_status owner_where];
    rewrite !andb_true_iff, !String.eqb_eq; tauto.
Qed.

Lemma listing_results (u : string) (search jobStatus : option string)
    (page limit : option Z) (s : Server) :
  authenticated u s ->
  exists r s',
    getAllJobsAction search jobStatus page limit s = (Ok r, s')
    /\ rows s' = rows s
    /\ (r = mkJobsPage [] 0 1 (Int 0)
        \/ jobs r = window ((from_option (fun p => p) 1 page - 1)
                             * from_option (fun l => l) 10 limit)
                      (Some (from_option (fun l => l) 10 limit))
                      (merge_sort (precedes desc (hd (fun _ => 0) (ties s)))
                         (matching u search jobStatus (rows s)))).
Proof.
  intros Hu. unfold getAllJobsAction. signed_in Hu.
  unfold try_catch, bind, prisma_job.findMany, prisma_job.count.
  destruct (decide (faults s !! 0%nat = Some true)) as [H0|H0].
  - rewrite storage_call_fails by assumption. do 2 eexists.
    split; [reflexivity|]. split; [apply rows_after_call|now left].
  - rewrite storage_call_serves by assumption.
    destruct (_ || _).
    + do 2 eexists. split; [reflexivity|]. split; [apply rows_after_call|now left].
    + rewrite ties_after_call. fold (after_query s).
      destruct (decide (faults (after_query s) !! 0%nat = Some true)) as [H1|H1].
      * rewrite storage_call_fails by assumption. do 2 eexists.
        split; [reflexivity|].
        split; [now rewrite rows_after_call, rows_after_query|now left].
      * rewrite storage_call_serves by assumption. do 2 eexists.
        split; [reflexivity|].
        split; [now rewrite rows_after_call, rows_after_query|].
        right. cbn [jobs]. now rewrite rows_after_call.
Qed.

Lemma listing_members (u : string) (search jobStatus : option string)
    (page limit : option Z) (s : Server) :
  authenticated u s ->
  exists r,
    fst (getAllJobsAction search jobStatus page limit s) = Ok r
    /\ forall j, In j (jobs r) ->
         In j (rows s) /\ where_matches (list_where u search jobStatus) j = true.
Proof.
  intros Hu.
  destruct (listing_results u search jobStatus page limit s Hu)
    as (r & s' & Hr & Hrows & Hjobs).
  exists r. split; [now rewrite Hr|].
  intros j Hj. destruct Hjobs as [->|Hjobs]; [contradiction|].
  rewrite Hjobs in Hj. apply In_window, list_elem_of_In in Hj.
  rewrite merge_sort_Permutation in Hj.
  apply list_elem_of_filter in Hj as [Hw Hin].
  split; [now apply list_elem_of_In|assumption].
Qed.

(** X7. For a signed-in caller [getAllJobsAction] never throws, whatever
    its arguments and whatever the storage layer does; every record it
    returns is a stored record of the caller that passes the search and
    status filter, the page holds at most |limit| records, and the table
    is not changed. *)
Theorem listing_is_scoped (u : string) (search jobStatus : option string)
    (page limit : option Z) (s : Server) :
  authenticated u s ->
  exists r,
    fst (getAllJobsAction search jobStatus page limit s) = Ok r
    /\ (forall j, In j (jobs r) ->
          In j (rows s) /\ clerkId j = u
          /\ passes_filter u search jobStatus j = true)
    /\ Z.of_nat (length (jobs r)) <= Z.abs (from_option (fun l => l) 10 limit)
    /\ rows (snd (getAllJobsAction search jobStatus page limit s)) = rows s.
Proof.
  intros Hu.
  destruct (listing_results u search jobStatus page limit s Hu)
    as (r & s' & Hr & Hrows & Hjobs).
  exists r. split; [now rewrite Hr|]. split; [|split; [|now rewrite Hr]].
  - intros j Hj.
    destruct (listing_members u search jobStatus page limit s Hu)
      as (r' & Hr' & Hin).
    rewrite Hr in Hr'. cbn [fst] in Hr'. injection Hr' as <-.
    destruct (Hin j Hj) as [Hrow Hw]. split; [assumption|].
    split; [now apply (list_where_owner u search jobStatus)|].
    now rewrite <- list_where_spec.
  - destruct Hjobs as [->|Hjobs]; [simpl; lia|].
    rewrite Hjobs. apply length_window.
Qed.

(** X8. The status filter is an exact comparison: with a status other than
    "all" every record returned has exactly that status, letter case
    included.  The empty string and "all" filter nothing: they give the
    listing of an omitted status. *)
Theorem status_filter_is_exact (u st : string) (search : option string)
    (page limit : option Z) (s : Server) (r : JobsPage) :
  authenticated u s -> truthy st = true -> st <> "all" ->
  fst (getAllJobsAction search (Some st) page limit s) = Ok r ->
  (forall j, In j (jobs r) -> status j = st)
  /\ getAllJobsAction search (Some "all") page limit s
     = getAllJobsAction search None page limit s
  /\ getAllJobsAction search (Some "") page limit s
     = getAllJobsAction search None page limit s.
Proof.
  intros Hu Ht Hall Hr. split; [|split; reflexivity].
  destruct (listing_members u search (Some st) page limit s Hu) as (r' & Hr' & Hin).
  rewrite Hr in Hr'. injection Hr' as <-.
  intros j Hj. apply (list_where_status u st search); [assumption..|].
  now apply Hin.
Qed.

Lemma pages_concat {A} (l : list A) (p t : nat) :
  concat (map (fun k => take p (drop ((k - 1) * p) l)) (seq 1 t)) = take (t * p) l.
Proof.
  induction t as [|t IH]; [reflexivity|].
  rewrite seq_S, map_app, concat_app, IH. cbn [map concat Nat.add].
  rewrite app_nil_r.
  replace (S t - 1)%nat with t by lia.
  rewrite take_take_drop. f_equal. lia.
Qed.

Lemma Date_le_antisym (a b : Date) : Date_le a b -> Date_le b a -> a = b.
Proof.
  destruct a, b. unfold Date_le. rewrite !Date_leb_spec. cbn [year month day tod].
  intros H1 H2. f_equal; lia.
Qed.

Lemma NoDup_map_inj {A B} (f : A -> B) (l : list A) (x y : A) :
  NoDup (map f l) -> x ∈ l -> y ∈ l -> f x = f y -> x = y.
Proof.
  induction l as [|a l IH]; cbn [map]; intros Hnd Hx Hy Heq.
  - now apply elem_of_nil in Hx.
  - apply NoDup_cons in Hnd as [Ha Hnd].
    apply elem_of_cons in Hx as [->|Hx], Hy as [->|Hy]; auto.
    + exfalso. apply Ha. rewrite Heq. apply list_elem_of_fmap. now exists y.
    + exfalso. apply Ha. rewrite <- Heq. apply list_elem_of_fmap. now exists x.
Qed.

(** Records created at distinct instants have one order by [createdAt]. *)
Lemma sorted_by_instant_unique (o : SortOrder) (l1 l2 : list Job) :
  distinct_instants l1 -> l1 ≡ₚ l2 ->
  StronglySorted (ordered o) l1 -> StronglySorted (ordered o) l2 -> l1 = l2.
Proof.
  intros Hd Hperm H1 H2.
  apply (StronglySorted_unique_strong (ordered o)); [|assumption..].
  intros x1 x2 Hx1 Hx2 R12 R21. rewrite <- Hperm in Hx2.
  apply (NoDup_map_inj createdAt l1); [assumption..|].
  destruct o; cbn [ordered] in *; now apply Date_le_antisym.
Qed.

Lemma query_order_unique (o : SortOrder) (rank : Job -> Z) (l : list Job) :
  distinct_instants l ->
  merge_sort (precedes o rank) l = merge_sort (ordered o) l.
Proof.
  intros Hd. apply (sorted_by_instant_unique o).
  - unfold distinct_instants. now rewrite merge_sort_Permutation.
  - now rewrite !merge_sort_Permutation.
  - apply query_sorted.
  - apply StronglySorted_merge_sort; apply _.
Qed.

Lemma same_table_signed_in (u : string) (s1 s2 : Server) :
  same_table s1 s2 -> authenticated u s2 -> authenticated u s1.
Proof. intros [Hs _] [H1 H2]. split; [congruence|assumption]. Qed.

(** X9. The pages 1, 2, ..., t of size [p > 0], each asked in a query of
    its own over the same table, are together the whole list of matching
    records in descending order of [createdAt], each record once, as soon
    as [t * p] reaches their number, provided no two matching records were
    created at the same instant (the order among such records is not
    fixed from one query to the next) and [t * p] is in the range of
    integers the program computes exactly. *)
Theorem pages_cover_the_listing (u : string) (search jobStatus : option string)
    (p t : nat) (s : Server) (world_at : nat -> Server) :
  authenticated u s ->
  (forall k, same_table (world_at k) s /\ storage_serves 2 (world_at k)) ->
  (0 < p)%nat -> safe_integer (Z.of_nat (t * p)) ->
  let found :=
    filter (fun j => passes_filter u search jobStatus j = true) (rows s) in
  distinct_instants found ->
  (length found <= t * p)%nat ->
  exists newest_first,
    newest_first ≡ₚ found
    /\ StronglySorted (ordered desc) newest_first
    /\ concat (map (fun k => listed (fst (getAllJobsAction search jobStatus
                                            (Some (Z.of_nat k)) (Some (Z.of_nat p))
                                            (world_at k))))
                 (seq 1 t))
       = newest_first.
Proof.
  intros Hu Hworld Hp Hsafe found Hd Ht.
  set (l := merge_sort (ordered desc) found).
  exists l. split; [apply merge_sort_Permutation|].
  split; [apply StronglySorted_merge_sort; apply _|].
  rewrite (map_ext_in _ (fun k => take p (drop ((k - 1) * p) l))).
  - rewrite pages_concat. apply take_ge. unfold l.
    now rewrite (Permutation_length (merge_sort_Permutation _ _)).
  - intros k Hk%in_seq. destruct (Hworld k) as [Hsame Hserve].
    pose proof (same_table_signed_in u _ _ Hsame Hu) as Hu'.
    destruct Hsame as [_ Hrows].
    assert (Hskip : 0 <= (Z.of_nat k - 1) * Z.of_nat p)
      by (apply Z.mul_nonneg_nonneg; lia).
    assert (Hle : (Z.of_nat k - 1) * Z.of_nat p <= Z.of_nat (t * p)) by nia.
    assert (Hlp : Z.of_nat p <= Z.of_nat (t * p)) by nia.
    rewrite (listing_served u);
      [|assumption..| |];
      [|apply safe_integer_fits; unfold safe_integer in *; lia
       |apply safe_integer_fits; unfold safe_integer in *; lia].
    cbn [listed jobs window].
    rewrite (proj2 (Z.leb_le 0 (Z.of_nat p))) by lia.
    rewrite Hrows, matching_spec. fold found.
    rewrite query_order_unique by assumption. fold l.
    rewrite Nat2Z.id. do 2 f_equal.
    rewrite Z2Nat.inj_mul, Nat2Z.id by lia. f_equal. lia.
Qed.

(** X12. The export holds the records that the listing returns without
    search and status filter on page 1 with a page size, in the range of
    the store, that holds all of the owner's records, the two asked in
    queries of their own over the same table; the listing's count is
    their number, and the order is the same too when no two of the owner's
    records were created at the same instant. *)
Theorem download_is_unpaged_listing (u : string) (s s2 : Server) (p : Z) :
  authenticated u s -> storage_serves 1 s ->
  same_table s2 s -> storage_serves 2 s2 ->
  0 < p -> safe_integer p ->
  let mine := filter (fun j => clerkId j = u) (rows s) in
  Z.of_nat (length mine) <= p ->
  exists all page,
    fst (getAllJobsForDownloadAction s) = Ok all
    /\ fst (getAllJobsAction None None (Some 1) (Some p) s2) = Ok page
    /\ jobs page ≡ₚ all
    /\ count page = length all
    /\ (distinct_instants mine -> jobs page = all).
Proof.
  intros Hu Hserve Hsame Hserve2 Hp Hsafe mine Hall.
  pose proof (same_table_signed_in u _ _ Hsame Hu) as Hu2.
  destruct Hsame as [_ Hrows].
  assert (Hmine : matching u None None (rows s2) = mine).
  { rewrite Hrows. apply list_filter_iff. intros j. apply owner_where_spec. }
  assert (Hown : filter (fun j => where_matches (owner_where u) j = true) (rows s)
                 = mine).
  { apply list_filter_iff. intros j. apply owner_where_spec. }
  do 2 eexists. split; [|split; [|split; [|split]]].
  - rewrite (download_served u) by assumption. rewrite Hown. reflexivity.
  - rewrite (listing_served u);
      [|assumption|assumption|lia|reflexivity|now apply safe_integer_fits].
    rewrite Hmine. reflexivity.
  - cbn [jobs window Z.sub Z.mul Z.to_nat Z.add Z.opp Z.pos_sub].
    rewrite (proj2 (Z.leb_le 0 p)) by lia. rewrite skipn_O, take_ge.
    + now rewrite !merge_sort_Permutation.
    + rewrite (Permutation_length (merge_sort_Permutation _ _)). lia.
  - cbn [count]. now rewrite (Permutation_length (merge_sort_Permutation _ _)).
  - intros Hd.
    cbn [jobs window Z.sub Z.mul Z.to_nat Z.add Z.opp Z.pos_sub].
    rewrite (proj2 (Z.leb_le 0 p)) by lia. rewrite skipn_O, take_ge.
    + now rewrite !query_order_unique.
    + rewrite (Permutation_length (merge_sort_Permutation _ _)). lia.
Qed.

(** ** Totals of the statistics and of the chart *)

Lemma stats_counts (u : string) (s : Server) :
  authenticated u s -> storage_serves 1 s ->
  exists stats : gmap string nat,
    fst (getStatsAction s) = Ok stats
    /\ forall key, In key stats_keys ->
         stats !! key
         = Some (length (filter (fun j => clerkId j = u
                                          /\ toLowerCase (status j) = key) (rows s))).
Proof.
  intros Hu Hserve. eexists. split.
  - unfold getStatsAction. signed_in Hu.
    unfold try_catch, bind, prisma_job.groupBy.
    rewrite storage_call_serves by (apply Hserve; lia).
    rewrite rows_after_call. reflexivity.
  - intros key Hkey.
    pose proof (stats_fold_lookup key
      (tally (map status
         (filter (fun j => where_matches (owner_where u) j = true) (rows s))))
      ∅ Hkey) as Hl.
    rewrite lookup_empty, weight_tally, owner_status_count in Hl. simpl in Hl.
    rewrite <- Hl. rewrite lookup_union.
    destruct (fold_left stats_step _ ∅ !! key) as [n|] eqn:Hn;
      simpl in Hkey; destruct Hkey as [<-|[<-|[<-|[]]]]; reflexivity.
Qed.

Lemma recognised_split (u : string) (l : list Job) :
  (length (filter (fun j => clerkId j = u /\ toLowerCase (status j) = "pending") l)
   + length (filter (fun j => clerkId j = u /\ toLowerCase (status j) = "interview") l)
   + length (filter (fun j => clerkId j = u /\ toLowerCase (status j) = "declined") l))%nat
  = length (filter (fun j => clerkId j = u /\ toLowerCase (status j) ∈ stats_keys) l).
Proof.
  induction l as [|j l IH]; [reflexivity|].
  rewrite !filter_cons.
  destruct (decide (clerkId j = u)) as [Hu|Hu].
  - destruct (decide (toLowerCase (status j) = "pending")) as [Hp|Hp];
      [|destruct (decide (toLowerCase (status j) = "interview")) as [Hi|Hi];
        [|destruct (decide (toLowerCase (status j) = "declined")) as [Hd|Hd]]].
    + rewrite decide_True by tauto.
      rewrite (decide_False (P := _ /\ _ = "interview")) by (rewrite Hp; intuition discriminate).
      rewrite (decide_False (P := _ /\ _ = "declined")) by (rewrite Hp; intuition discriminate).
      rewrite (decide_True (P := _ /\ _ ∈ _)) by (rewrite Hp; split; [assumption|set_solver]).
      simpl. lia.
    + rewrite (decide_False (P := _ /\ _ = "pending")) by tauto.
      rewrite (decide_True (P := _ /\ _ = "interview")) by tauto.
      rewrite (decide_False (P := _ /\ _ = "declined")) by (rewrite Hi; intuition discriminate).
      rewrite (decide_True (P := _ /\ _ ∈ _)) by (rewrite Hi; split; [assumption|set_solver]).
      simpl. lia.
    + rewrite (decide_False (P := _ /\ _ = "pending")) by tauto.
      rewrite (decide_False (P := _ /\ _ = "interview")) by tauto.
      rewrite (decide_True (P := _ /\ _ = "declined")) by tauto.
      rewrite (decide_True (P := _ /\ _ ∈ _)) by (rewrite Hd; split; [assumption|set_solver]).
      simpl. lia.
    + rewrite (decide_False (P := _ /\ _ = "pending")) by tauto.
      rewrite (decide_False (P := _ /\ _ = "interview")) by tauto.
      rewrite (decide_False (P := _ /\ _ = "declined")) by tauto.
      rewrite (decide_False (P := _ /\ _ ∈ _)); [exact IH|].
      intros [_ Hin]. unfold stats_keys in Hin.
      apply elem_of_cons in Hin as [?|Hin]; [contradiction|].
      apply elem_of_cons in Hin as [?|Hin]; [contradiction|].
      apply elem_of_cons in Hin as [?|Hin]; [contradiction|].
      now apply elem_of_nil in Hin.
  - rewrite !decide_False by tauto. exact IH.
Qed.

Lemma length_filter_weaken {A} (P Q : A -> Prop) `{forall x, Decision (P x)}
    `{forall x, Decision (Q x)} (l : list A) :
  (forall x, P x -> Q x) -> (length (filter P l) <= length (filter Q l))%nat.
Proof.
  intros HPQ. induction l as [|x l IH]; [reflexivity|].
  rewrite !filter_cons. destruct (decide (P x)) as [Hp|Hp].
  - rewrite decide_True by auto. simpl. lia.
  - destruct (decide (Q x)); simpl; lia.
Qed.

(** X10. The three counts of [getStatsAction] add up to the number of the
    owner's records whose lower-cased status is one of the three names;
    that is at most the number of the owner's records, and less whenever a
    record carries another status. *)
Theorem stats_total (u : string) (s : Server) :
  authenticated u s -> storage_serves 1 s ->
  exists (stats : gmap string nat) (a b c : nat),
    fst (getStatsAction s) = Ok stats
    /\ stats !! "pending" = Some a
    /\ stats !! "interview" = Some b
    /\ stats !! "declined" = Some c
    /\ (a + b + c)%nat
       = length (filter (fun j => clerkId j = u
                                  /\ toLowerCase (status j) ∈ stats_keys) (rows s))
    /\ (a + b + c <= length (filter (fun j => clerkId j = u) (rows s)))%nat.
Proof.
  intros Hu Hserve.
  destruct (stats_counts u s Hu Hserve) as (stats & Hs & Hc).
  do 4 eexists. split; [exact Hs|].
  split; [apply Hc; simpl; tauto|]. split; [apply Hc; simpl; tauto|].
  split; [apply Hc; simpl; tauto|].
  rewrite recognised_split. split; [reflexivity|].
  apply length_filter_weaken. tauto.
Qed.

Section TallyTotals.
Context {K : Type} `{EqDecision K}.

Lemma bump_total (x : K) (acc : list (K * nat)) :
  list_sum (map snd (bump x acc)) = S (list_sum (map snd acc)).
Proof.
  induction acc as [|[k n] acc IH]; [reflexivity|].
  cbn [bump]. destruct (decide (k = x)).
  - simpl. lia.
  - change (list_sum (map snd ((k, n) :: bump x acc)))
      with (n + list_sum (map snd (bump x acc)))%nat.
    rewrite IH. simpl. lia.
Qed.

Lemma tally_total (l : list K) : list_sum (map snd (tally l)) = length l.
Proof.
  induction l as [|x l IH] using rev_ind; [reflexivity|].
  rewrite tally_snoc, bump_total, IH, length_app. simpl. lia.
Qed.

Lemma bump_positive (x : K) (acc : list (K * nat)) :
  Forall (fun e => (1 <= e.2)%nat) acc ->
  Forall (fun e => (1 <= e.2)%nat) (bump x acc).
Proof.
  induction 1 as [|[k n] acc Hn Hacc IH]; cbn [bump].
  - repeat constructor.
  - destruct (decide (k = x)); constructor.
    + simpl. lia.
    + exact Hacc.
    + exact Hn.
    + exact IH.
Qed.

Lemma tally_positive (l : list K) : Forall (fun e => (1 <= e.2)%nat) (tally l).
Proof.
  induction l as [|x l IH] using rev_ind; [constructor|].
  rewrite tally_snoc. now apply bump_positive.
Qed.

Lemma tally_length_bound (l candidates : list K) :
  (forall x, In x l -> In x candidates) ->
  (length (tally l) <= length candidates)%nat.
Proof.
  intros Hin. rewrite <- (length_map fst (tally l)).
  apply NoDup_incl_length.
  - apply NoDup_ListNoDup, tally_keys_NoDup.
  - intros k Hk. apply Hin, list_elem_of_In, tally_keys_elem, list_elem_of_In, Hk.
Qed.
End TallyTotals.

Lemma window_month_index (now d : Date) :
  valid_month now -> valid_month d ->
  Date_le (dayjs.subtract_month 6 now) d -> Date_le d now ->
  exists k, 0 <= k <= 6
            /\ year d = (12 * year now + month now - k) / 12
            /\ month d = (12 * year now + month now - k) mod 12.
Proof.
  unfold valid_month, Date_le. rewrite !Date_leb_spec.
  cbn [dayjs.subtract_month year month].
  intros Hn Hd Hlo Hhi.
  exists (12 * year now + month now - (12 * year d + month d)).
  Z.div_mod_to_equations. lia.
Qed.

Lemma chart_served (u : string) (s : Server) :
  authenticated u s -> storage_serves 1 s ->
  fst (getChartsDataAction s)
  = Ok (tally (map (fun j => dayjs.format_MMM_YY (createdAt j))
                 (merge_sort (precedes asc (hd (fun _ => 0) (ties s)))
                    (filter (fun j => where_matches
                                        (mkWhere (Some u) None None
                                           (Some (mkDateTimeFilter
                                                    (dayjs.subtract_month 6 (clock s))
                                                    (clock s)))) j = true)
                       (rows s))))).
Proof.
  intros Hu Hserve. unfold getChartsDataAction. signed_in Hu.
  unfold bind at 1, dayjs.now.
  unfold try_catch, bind.
  rewrite findMany_served by ((apply Hserve; lia) || reflexivity || (simpl; lia)).
  cbn [window from_option Z.to_nat]. unfold ret. cbn [fst].
  rewrite skipn_O. f_equal.
  apply (fold_left_bump_map (fun job => dayjs.format_MMM_YY (createdAt job))).
Qed.

(** X11. The chart never has more than seven entries, every entry counts
    at least one record, and the counts add up to the number of the owner's
    records created in the window from six months before now to now. *)
Theorem chart_totals (u : string) (s : Server) :
  authenticated u s -> storage_serves 1 s ->
  valid_month (clock s) ->
  Forall (fun j => valid_month (createdAt j)) (rows s) ->
  exists entries,
    fst (getChartsDataAction s) = Ok entries
    /\ (length entries <= 7)%nat
    /\ Forall (fun e => (1 <= e.2)%nat) entries
    /\ list_sum (map snd entries)
       = length (filter (in_trend_window u (clock s)) (rows s)).
Proof.
  intros Hu Hserve Hnow Hvalid.
  eexists. split; [apply (chart_served u s Hu Hserve)|].
  set (W := mkWhere _ _ _ _).
  assert (Hperm : merge_sort (precedes asc (hd (fun _ => 0) (ties s)))
                    (filter (fun j => where_matches W j = true) (rows s))
                  ≡ₚ filter (in_trend_window u (clock s)) (rows s)).
  { rewrite merge_sort_Permutation.
    rewrite (list_filter_iff _ (in_trend_window u (clock s))); [reflexivity|].
    intros j. apply trend_where_spec. }
  split; [|split].
  - set (I := 12 * year (clock s) + month (clock s)).
    apply (tally_length_bound _
             (map (fun k => dayjs.month_label ((I - k) / 12) ((I - k) mod 12))
                [0; 1; 2; 3; 4; 5; 6])).
    intros x (j & <- & Hj)%in_map_iff.
    apply list_elem_of_In in Hj. rewrite Hperm in Hj.
    apply list_elem_of_filter in Hj as [(_ & Hlo & Hhi) Hj].
    rewrite Forall_forall in Hvalid.
    destruct (window_month_index (clock s) (createdAt j) Hnow (Hvalid j Hj) Hlo Hhi)
      as (k & Hk & Hy & Hm).
    apply in_map_iff. exists k. split.
    + unfold dayjs.format_MMM_YY. fold I in Hy, Hm. now rewrite Hy, Hm.
    + simpl. lia.
  - apply tally_positive.
  - rewrite tally_total, length_map. now apply Permutation_length.
Qed.

(** ** scripts/db-fix-status.ts *)

Lemma is_space_lower (c : ascii) : is_space (lower_ascii c) = is_space c.
Proof. destruct c as [[] [] [] [] [] [] [] []]; vm_compute; reflexivity. Qed.

Lemma no_space_lower (s : string) : no_space (toLowerCase s) = no_space s.
Proof.
  induction s as [|c r IH]; [reflexivity|].
  cbn [toLowerCase no_space]. now rewrite is_space_lower, IH.
Qed.

Lemma trim_no_space (s : string) : no_space s = true -> trim s = s.
Proof.
  intros Hs. unfold trim.
  assert (Hend : trimEnd s = s).
  { induction s as [|c r IH]; [reflexivity|].
    cbn [no_space] in Hs. apply andb_true_iff in Hs as [Hc Hr].
    cbn [trimEnd]. rewrite (IH Hr). apply negb_true_iff in Hc. rewrite Hc.
    now destruct r. }
  rewrite Hend. destruct s as [|c r]; [reflexivity|].
  cbn [no_space] in Hs. apply andb_true_iff in Hs as [Hc _].
  apply negb_true_iff in Hc. cbn [trimStart]. now rewrite Hc.
Qed.

Lemma valid_status_cases (t : string) :
  existsb (String.eqb t) db_fix_status.VALID_STATUSES = true ->
  t = "pending" \/ t = "interview" \/ t = "declined".
Proof.
  intros (x & Hx & ->%String.eqb_eq)%existsb_exists.
  simpl in Hx. intuition.
Qed.

Lemma normalizeStatus_range (raw t : string) :
  db_fix_status.normalizeStatus raw = Some t ->
  t = "pending" \/ t = "interview" \/ t = "declined".
Proof.
  unfold db_fix_status.normalizeStatus.
  destruct (negb (truthy _)); [intros [= <-]; now left|].
  destruct (existsb _ _) eqn:He; [|discriminate].
  intros [= <-]. now apply valid_status_cases.
Qed.

Lemma normalizeStatus_truthy (raw t : string) :
  db_fix_status.normalizeStatus raw = Some t -> truthy t = true.
Proof. intros [-> | [-> | ->]]%normalizeStatus_range; reflexivity. Qed.

Lemma normalizeStatus_fixpoint (raw t : string) :
  db_fix_status.normalizeStatus raw = Some t ->
  db_fix_status.normalizeStatus t = Some t /\ toLowerCase t = t.
Proof. intros [-> | [-> | ->]]%normalizeStatus_range; split; reflexivity. Qed.

(** X13. [normalizeStatus] answers only with one of the three status names
    or with no answer, and a name it has answered with is left as it is:
    the normalization is idempotent and never returns the empty string. *)
Theorem normalizeStatus_idempotent (raw t : string) :
  db_fix_status.normalizeStatus raw = Some t ->
  In t db_fix_status.VALID_STATUSES
  /\ db_fix_status.normalizeStatus t = Some t
  /\ truthy t = true.
Proof.
  intros [-> | [-> | ->]]%normalizeStatus_range; repeat split; simpl; tauto.
Qed.

Lemma normalizeStatus_idempotent_witness :
  In "declined" db_fix_status.VALID_STATUSES
  /\ db_fix_status.normalizeStatus "declined" = Some "declined"
  /\ truthy "declined" = true.
Proof.
  apply (normalizeStatus_idempotent (status Imported.padded)).
  vm_compute. reflexivity.
Defined.

Lemma normalizeStatus_counted (raw : string) :
  In (toLowerCase raw) stats_keys ->
  db_fix_status.normalizeStatus raw = Some (toLowerCase raw).
Proof.
  intros Hkey.
  assert (Hns : no_space raw = true).
  { rewrite <- no_space_lower. simpl in Hkey.
    destruct Hkey as [<-|[<-|[<-|[]]]]; reflexivity. }
  unfold db_fix_status.normalizeStatus. rewrite (trim_no_space raw Hns).
  simpl in Hkey. destruct Hkey as [<-|[<-|[<-|[]]]]; reflexivity.
Qed.

Lemma toLowerCase_empty (t : string) : toLowerCase t = "" <-> t = "".
Proof. destruct t; cbn [toLowerCase]; split; congruence. Qed.

(** X14. Whatever status [getStatsAction] counts under a key, that is every
    status whose lower-cased form is one of the three names,
    [normalizeStatus] maps to that same key.  The script goes further only
    by trimming white space and by reading the empty status as pending: it
    maps a status to a key exactly when the trimmed status, lower-cased, is
    the key, or the trimmed status is empty and the key is pending. *)
Theorem normalizeStatus_agrees_with_stats (raw key : string) :
  In key stats_keys ->
  (toLowerCase raw = key -> db_fix_status.normalizeStatus raw = Some key)
  /\ (db_fix_status.normalizeStatus raw = Some key
      <-> toLowerCase (trim raw) = key \/ (trim raw = "" /\ key = "pending")).
Proof.
  intros Hkey. split.
  - intros <-.
    assert (Hns : no_space raw = true).
    { rewrite <- no_space_lower. simpl in Hkey.
      destruct Hkey as [<-|[<-|[<-|[]]]]; reflexivity. }
    unfold db_fix_status.normalizeStatus.
    rewrite (trim_no_space raw Hns).
    simpl in Hkey. destruct Hkey as [<-|[<-|[<-|[]]]]; reflexivity.
  - assert (Hne : key <> "")
      by (simpl in Hkey; destruct Hkey as [<-|[<-|[<-|[]]]]; discriminate).
    unfold db_fix_status.normalizeStatus.
    destruct (toLowerCase (trim raw)) as [|c t] eqn:Hlow; cbn [truthy negb].
    + apply (proj1 (toLowerCase_empty _)) in Hlow. split.
      * intros [= <-]. right. split; [assumption|reflexivity].
      * intros [Hk|[_ ->]]; [congruence|reflexivity].
    + assert (Htrim : trim raw <> "").
      { intros Hempty. rewrite Hempty in Hlow. discriminate. }
      destruct (existsb _ _) eqn:He.
      * split; [intros [= <-]; now left|].
        intros [<-|[Hempty _]]; [reflexivity|contradiction].
      * split; [discriminate|].
        intros [<-|[Hempty _]]; [|contradiction].
        exfalso. apply not_true_iff_false in He. apply He.
        apply existsb_exists. exists (String c t).
        split; [exact Hkey|apply String.eqb_refl].
Qed.

Lemma normalizeStatus_agrees_with_stats_witness :
  (toLowerCase "Interview" = "interview"
   -> db_fix_status.normalizeStatus "Interview" = Some "interview")
  /\ (db_fix_status.normalizeStatus "Interview" = Some "interview"
      <-> toLowerCase (trim "Interview") = "interview"
          \/ (trim "Interview" = "" /\ "interview" = "pending")).
Proof.
  apply (normalizeStatus_agrees_with_stats "Interview" "interview").
  simpl. tauto.
Defined.

(** The two ways the script goes further than the statistics, on the
    imported table: a padded status and an empty one. *)
Example normalizeStatus_goes_further :
  db_fix_status.normalizeStatus (status Imported.padded) = Some "declined"
  /\ ~ In (toLowerCase (status Imported.padded)) stats_keys
  /\ db_fix_status.normalizeStatus (status Imported.blank) = Some "pending"
  /\ ~ In (toLowerCase (status Imported.blank)) stats_keys.
Proof.
  split; [vm_compute; reflexivity|]. split; [vm_compute; intuition discriminate|].
  split; [vm_compute; reflexivity|]. vm_compute; intuition discriminate.
Qed.

Lemma status_only_valid parse (t : string) :
  data_valid parse (<["status" := VStr t]> ∅) = true.
Proof.
  apply data_valid_forall. intros k v Hkv.
  destruct (decide (k = "status")) as [->|Hne].
  - rewrite lookup_insert_eq in Hkv. injection Hkv as <-. reflexivity.
  - rewrite lookup_insert_ne, lookup_empty in Hkv by congruence. discriminate.
Qed.

Lemma status_only_keeps parse (t : string) (now : Date) (j : Job) :
  apply_data parse (<["status" := VStr t]> ∅) now j
  = mkJob (id j) (clerkId j) (createdAt j) now (position j) (company j)
          (location j) t (mode j).
Proof.
  unfold apply_data, get_str, get_date.
  rewrite lookup_insert_eq, !lookup_insert_ne, !lookup_empty by discriminate.
  rewrite decide_False by apply insert_non_empty.
  reflexivity.
Qed.

Lemma fix_row_keeps (now : Date) (j : Job) :
  id (fix_row now j) = id j /\ clerkId (fix_row now j) = clerkId j.
Proof.
  unfold fix_row. destruct (db_fix_status.normalizeStatus (status j)) as [t|]; [|auto].
  destruct (String.eqb t (status j)); [auto|]. now rewrite status_only_keeps.
Qed.

Lemma find_by_id_middle (l1 l2 : list Job) (x : Job) :
  (forall j, In j l1 -> id j <> id x) ->
  List.find (fun j => String.eqb (id j) (id x)) (l1 ++ x :: l2) = Some x.
Proof.
  induction l1 as [|y l1 IH]; intros Hne; simpl.
  - now rewrite String.eqb_refl.
  - rewrite (proj2 (String.eqb_neq _ _) (Hne y (or_introl eq_refl))).
    apply IH. intros j Hj. apply Hne. now right.
Qed.

Lemma replace_by_id_middle (l1 l2 : list Job) (x new : Job) :
  (forall j, In j (l1 ++ l2) -> id j <> id x) ->
  map (fun j => if String.eqb (id j) (id x) then new else j) (l1 ++ x :: l2)
  = l1 ++ new :: l2.
Proof.
  intros Hne.
  assert (Hsame : forall l, (forall j, In j l -> id j <> id x) ->
            map (fun j => if String.eqb (id j) (id x) then new else j) l = l).
  { induction l as [|y l IH]; intros H; [reflexivity|]. simpl.
    rewrite (proj2 (String.eqb_neq _ _) (H y (or_introl eq_refl))).
    f_equal. apply IH. intros j Hj. apply H. now right. }
  rewrite map_app. cbn [map]. rewrite String.eqb_refl.
  rewrite !Hsame; [reflexivity|..];
    intros j Hj; apply Hne, in_or_app; auto.
Qed.

Lemma toFix_cons (j : Job) (l : list Job) (now : Date) :
  db_fix_status.toFix (map (fun j => (id j, status j)) (j :: l))
  = (if decide (status (fix_row now j) = status j) then []
     else [(id j, status (fix_row now j))])
    ++ db_fix_status.toFix (map (fun j => (id j, status j)) l)
  /\ (status (fix_row now j) = status j -> fix_row now j = j)
  /\ (status (fix_row now j) <> status j ->
      forall parse,
        fix_row now j
        = apply_data parse (<["status" := VStr (status (fix_row now j))]> ∅) now j).
Proof.
  unfold db_fix_status.toFix at 1. cbn [map flat_map fst snd].
  fold (db_fix_status.toFix (map (fun j => (id j, status j)) l)).
  unfold fix_row.
  destruct (db_fix_status.normalizeStatus (status j)) as [t|] eqn:Hn.
  - apply normalizeStatus_truthy in Hn. rewrite Hn. cbn [andb].
    destruct (String.eqb t (status j)) eqn:Ht; cbn [negb].
    + rewrite decide_True by reflexivity. repeat split; congruence.
    + rewrite status_only_keeps. cbn [status]. apply String.eqb_neq in Ht.
      rewrite decide_False by assumption. split; [reflexivity|]. split.
      * congruence.
      * intros _ parse. now rewrite status_only_keeps.
  - rewrite decide_True by reflexivity. repeat split; congruence.
Qed.

Lemma middle_distinct (pre suf : list Job) (x : Job) :
  NoDup (map id (pre ++ x :: suf)) ->
  (forall j, In j pre -> id j <> id x) /\ (forall j, In j suf -> id j <> id x).
Proof.
  rewrite map_app. cbn [map]. intros (_ & Hpre & Hsuf)%NoDup_app.
  apply NoDup_cons in Hsuf as [Hx _]. split.
  - intros j Hj Heq. apply (Hpre (id j)).
    + apply list_elem_of_In. now apply in_map.
    + rewrite Heq. left.
  - intros j Hj Heq. apply Hx. rewrite <- Heq.
    apply list_elem_of_In. now apply in_map.
Qed.

Lemma apply_fixes_run (now : Date) (suf : list Job) :
  forall (pre : list Job) (s : Server) (n : nat),
    faults s = [] -> clock s = now ->
    rows s = map (fix_row now) pre ++ suf ->
    NoDup (map id (pre ++ suf)) ->
    exists s',
      db_fix_status.apply_fixes
        (db_fix_status.toFix (map (fun j => (id j, status j)) suf)) n s
      = (Ok (n + length (db_fix_status.toFix (map (fun j => (id j, status j)) suf)))%nat, s')
      /\ rows s' = map (fix_row now) (pre ++ suf)
      /\ faults s' = [] /\ session s' = session s.
Proof.
  induction suf as [|x suf IH]; intros pre s n Hfaults Hclock Hrows Hnd.
  - exists s. cbn. rewrite Nat.add_0_r. repeat split; [|assumption].
    now rewrite Hrows, !app_nil_r.
  - destruct (toFix_cons x suf now) as (Heq & Hsame & Hchanged).
    destruct (middle_distinct pre suf x Hnd) as [Hpre Hsuf].
    rewrite Heq.
    assert (Hnd' : NoDup (map id ((pre ++ [x]) ++ suf)))
      by (now rewrite <- app_assoc).
    destruct (decide (status (fix_row now x) = status x)) as [He|Hne].
    + cbn [app].
      destruct (IH (pre ++ [x]) s n Hfaults Hclock) as (s' & Hrun & Hr & Hf & Hs).
      * rewrite Hrows, map_app, <- app_assoc. cbn [map app]. now rewrite (Hsame He).
      * exact Hnd'.
      * exists s'. rewrite <- app_assoc in Hr. repeat split; assumption.
    + cbn [app db_fix_status.apply_fixes length].
      unfold bind at 1, prisma_job_admin.update_by_id, storage_call.
      rewrite Hfaults, status_only_valid. cbn [negb].
      rewrite Hrows, find_by_id_middle.
      2:{ intros j (j0 & <- & Hj0)%in_map_iff.
          rewrite (proj1 (fix_row_keeps now j0)). now apply Hpre. }
      rewrite Hclock, <- (Hchanged Hne).
      rewrite (proj1 (fix_row_keeps now x)), String.eqb_refl. cbn [negb andb].
      rewrite replace_by_id_middle.
      2:{ intros j [(j0 & <- & Hj0)%in_map_iff|Hj]%in_app_or.
          - rewrite (proj1 (fix_row_keeps now j0)). now apply Hpre.
          - now apply Hsuf. }
      destruct (IH (pre ++ [x])
                  (set_rows (map (fix_row now) pre ++ fix_row now x :: suf) s) (S n))
        as (s' & Hrun & Hr & Hf & Hs).
      * exact Hfaults.
      * exact Hclock.
      * cbn [rows set_rows]. rewrite map_app, <- app_assoc. reflexivity.
      * exact Hnd'.
      * exists s'. rewrite <- app_assoc in Hr.
        split; [|repeat split; assumption].
        rewrite Hrun. f_equal. f_equal. lia.
Qed.

Lemma toFix_fixed (now : Date) (l : list Job) :
  db_fix_status.toFix (map (fun j => (id j, status j)) (map (fix_row now) l)) = [].
Proof.
  induction l as [|j l IH]; [reflexivity|].
  change (map (fix_row now) (j :: l)) with (fix_row now j :: map (fix_row now) l).
  destruct (toFix_cons (fix_row now j) (map (fix_row now) l) now) as (Heq & _).
  rewrite Heq, IH, app_nil_r.
  rewrite decide_True; [reflexivity|].
  unfold fix_row at 1.
  destruct (db_fix_status.normalizeStatus (status (fix_row now j))) as [t|] eqn:Hn;
    [|reflexivity].
  destruct (String.eqb t (status (fix_row now j))) eqn:Ht; [reflexivity|].
  exfalso. apply String.eqb_neq in Ht. apply Ht.
  unfold fix_row in Hn |- *.
  destruct (db_fix_status.normalizeStatus (status j)) as [t0|] eqn:Hn0.
  - destruct (normalizeStatus_fixpoint _ _ Hn0) as [Hfix _].
    destruct (String.eqb t0 (status j)) eqn:Ht0.
    + apply String.eqb_eq in Ht0. congruence.
    + rewrite status_only_keeps in *. cbn [status] in *. congruence.
  - congruence.
Qed.

Lemma fix_status_run (s : Server) :
  faults s = [] -> primary_key (rows s) ->
  exists s',
    db_fix_status.main s
    = (Ok (length (db_fix_status.toFix (map (fun j => (id j, status j)) (rows s)))), s')
    /\ rows s' = map (fix_row (clock s)) (rows s)
    /\ faults s' = [] /\ session s' = session s.
Proof.
  intros Hfaults Hpk.
  destruct (apply_fixes_run (clock s) (rows s) [] s 0 Hfaults eq_refl eq_refl Hpk)
    as (s' & Hrun & Hrows & Hf & Hs).
  cbn [app Nat.add] in Hrun, Hrows.
  unfold db_fix_status.main, bind, prisma_job_admin.findMany_id_status, storage_call.
  rewrite Hfaults.
  destruct (db_fix_status.toFix _) as [|f fixes] eqn:Hfix.
  - exists s. split; [reflexivity|].
    cbn in Hrun. injection Hrun as <-. repeat split; assumption.
  - cbn [length Nat.eqb]. exists s'. repeat split; assumption.
Qed.

(** X15. On a table with [id] as primary key and a storage layer that stays
    up, the status repair rewrites exactly the rows whose status
    normalizes to a name other than the stored one, to that name and with
    [updatedAt] refreshed; it reports their number, leaves every other row
    and every id and owner as they were, and a second run finds nothing to
    fix. *)
Theorem fix_status_repairs (s : Server) :
  faults s = [] -> primary_key (rows s) ->
  exists s',
    db_fix_status.main s
    = (Ok (length (db_fix_status.toFix (map (fun j => (id j, status j)) (rows s)))), s')
    /\ rows s' = map (fix_row (clock s)) (rows s)
    /\ map id (rows s') = map id (rows s)
    /\ map clerkId (rows s') = map clerkId (rows s)
    /\ db_fix_status.toFix (map (fun j => (id j, status j)) (rows s')) = [].
Proof.
  intros Hfaults Hpk.
  destruct (fix_status_run s Hfaults Hpk) as (s' & Hmain & Hrows & _).
  exists s'. split; [exact Hmain|]. split; [exact Hrows|].
  rewrite Hrows. split; [|split].
  - rewrite map_map. apply map_ext. intros j. apply fix_row_keeps.
  - rewrite map_map. apply map_ext. intros j. apply fix_row_keeps.
  - apply toFix_fixed.
Qed.

Lemma length_filter_map {A B} (f : A -> B) (P : B -> Prop)
    `{forall x, Decision (P x)} (l : list A) :
  length (filter P (map f l)) = length (filter (fun a => P (f a)) l).
Proof.
  induction l as [|a l IH]; [reflexivity|].
  cbn [map]. rewrite !filter_cons. destruct (decide (P (f a))); simpl; now rewrite IH.
Qed.

Lemma fix_row_status (now : Date) (j : Job) (key : string) :
  In key stats_keys ->
  toLowerCase (status (fix_row now j)) = key
  <-> db_fix_status.normalizeStatus (status j) = Some key.
Proof.
  intros Hkey. unfold fix_row.
  destruct (db_fix_status.normalizeStatus (status j)) as [t|] eqn:Hn.
  - destruct (normalizeStatus_fixpoint _ _ Hn) as [_ Hlow].
    destruct (String.eqb t (status j)) eqn:Ht.
    + apply String.eqb_eq in Ht. rewrite <- Ht, Hlow. split; congruence.
    + rewrite status_only_keeps. cbn [status]. rewrite Hlow. split; congruence.
  - split; [|discriminate]. intros Hlow. exfalso.
    rewrite <- Hlow in Hkey.
    rewrite (normalizeStatus_counted _ Hkey) in Hn. discriminate.
Qed.

(** X17. After the status repair the statistics count, under each of the
    three names, the owner's records whose stored status the script
    normalizes to that name: padded and blank statuses, which the statistics
    skipped before, are counted. *)
Theorem stats_after_repair (u : string) (s : Server) :
  faults s = [] -> primary_key (rows s) -> authenticated u s ->
  exists s' n (stats : gmap string nat),
    db_fix_status.main s = (Ok n, s')
    /\ fst (getStatsAction s') = Ok stats
    /\ forall key, In key stats_keys ->
         stats !! key
         = Some (length (filter (fun j => clerkId j = u
                                          /\ db_fix_status.normalizeStatus (status j)
                                             = Some key) (rows s))).
Proof.
  intros Hfaults Hpk Hu.
  destruct (fix_status_run s Hfaults Hpk) as (s' & Hmain & Hrows & Hf & Hs).
  assert (Hu' : authenticated u s').
  { destruct Hu as [H1 H2]. split; [congruence|assumption]. }
  assert (Hserve : storage_serves 1 s').
  { intros i _. rewrite Hf. discriminate. }
  destruct (stats_counts u s' Hu' Hserve) as (stats & Hstats & Hcount).
  exists s'. eexists. exists stats. split; [exact Hmain|]. split; [exact Hstats|].
  intros key Hkey. rewrite (Hcount key Hkey), Hrows. f_equal.
  rewrite (length_filter_map (fix_row (clock s))
             (fun j => clerkId j = u /\ toLowerCase (status j) = key)).
  f_equal. apply list_filter_iff. intros j.
  rewrite (proj2 (fix_row_keeps (clock s) j)), (fix_row_status _ _ _ Hkey).
  reflexivity.
Qed.

(** ** scripts/db-migrate-clerkid.ts *)




(** ** The further properties at the sample worlds *)

Lemma sample_key : primary_key (rows Sample.world).
Proof. apply (bool_decide_unpack _). vm_compute. exact I. Defined.

Lemma imported_signed_in : authenticated "user_alice" Imported.world.
Proof. split; reflexivity. Defined.

Lemma imported_serves n : storage_serves n Imported.world.
Proof. intros i _. discriminate. Defined.

Lemma imported_key : primary_key (rows Imported.world).
Proof. apply (bool_decide_unpack _). vm_compute. exact I. Defined.

Lemma create_then_read_witness :
  fst (getSingleJobAction (id Sample.created) Sample.world_after_create)
  = Ok (Some Sample.created).
Proof.
  apply (create_then_read "user_alice" Sample.values_with_owner Sample.world).
  - exact sample_signed_in.
  - vm_compute. reflexivity.
  - intros i _. discriminate.
Defined.

Lemma valid_form_is_created_witness :
  exists p c l st m,
    get_str Imported.form "position" = Some p
    /\ get_str Imported.form "company" = Some c
    /\ get_str Imported.form "location" = Some l
    /\ get_str Imported.form "status" = Some st
    /\ get_str Imported.form "mode" = Some m
    /\ fst (createJobAction Imported.form Imported.world)
       = Ok (Some (mkJob "uuid-0" "user_alice" (clock Imported.world)
                     (clock Imported.world) p c l st m)).
Proof.
  apply (valid_form_is_created "user_alice" Imported.form Imported.world).
  - exact imported_signed_in.
  - exact (imported_serves 1).
  - vm_compute. reflexivity.
  - intros k [v Hk]. unfold Imported.form in Hk.
    repeat match type of Hk with
           | context [<[?a := _]> _ !! k] =>
               destruct (decide (a = k)) as [<-|Hne];
               [left; simpl; tauto|rewrite lookup_insert_ne in Hk by assumption; clear Hne]
           end.
    rewrite lookup_empty in Hk. discriminate.
  - vm_compute. reflexivity.
Defined.

Lemma mutations_keep_primary_key_witness :
  primary_key (rows (snd (createJobAction Sample.values_with_owner Sample.world)))
  /\ primary_key (rows (snd (updateJobAction "job-1" Imported.edit Sample.world)))
  /\ primary_key (rows (snd (deleteJobAction "job-1" Sample.world))).
Proof.
  apply (mutations_keep_primary_key Sample.world Sample.values_with_owner "job-1").
  exact sample_key.
Defined.

Lemma owner_deletes_own_record_witness :
  exists s',
    deleteJobAction "job-1" Sample.world = (Ok (Some Sample.engineer), s')
    /\ rows s' = filter (fun j => id j <> "job-1") (rows Sample.world)
    /\ fst (getSingleJobAction "job-1" s') = Throw (NextRedirect "/jobs").
Proof.
  apply (owner_deletes_own_record "user_alice" Sample.world Sample.engineer).
  - exact sample_signed_in.
  - exact (sample_serves 1).
  - exact sample_key.
  - simpl. auto.
  - reflexivity.
Defined.

Lemma owner_update_keeps_identity_witness :
  schema_issues Imported.edit <> []
  /\ exists r' s',
       updateJobAction "job-7" Imported.edit Imported.world = (Ok (Some r'), s')
       /\ id r' = "job-7"
       /\ clerkId r' = "user_alice"
       /\ createdAt r' = createdAt Imported.padded
       /\ updatedAt r' = (if decide (Imported.edit = ∅)
                          then updatedAt Imported.padded
                          else clock Imported.world)
       /\ (forall k, In k form_fields ->
             form_value k r' = match Imported.edit !! k with
                               | Some (VStr t) => t
                               | _ => form_value k Imported.padded
                               end)
       /\ rows s'
          = map (fun j => if decide (id j = "job-7") then r' else j)
              (rows Imported.world).
Proof.
  split; [vm_compute; discriminate|].
  apply (owner_update_keeps_identity "user_alice" Imported.world Imported.padded
           Imported.edit).
  - exact imported_signed_in.
  - exact (imported_serves 1).
  - exact imported_key.
  - simpl. auto.
  - reflexivity.
  - intros k v Hk. unfold Imported.edit in Hk.
    destruct (decide ("status" = k)) as [<-|Hne].
    + rewrite lookup_insert_eq in Hk. injection Hk as <-.
      split; [simpl; tauto|now exists "accepted"].
    + rewrite lookup_insert_ne, lookup_empty in Hk by assumption. discriminate.
Defined.

(** A creation date given as a string the query engine can read is taken
    as that date; a string it cannot read fails the call, and the action
    returns null. *)
Example date_given_as_string :
  fst (createJobAction Imported.dated_form Imported.world_reading_iso)
  = Ok (Some (mkJob "uuid-0" "user_alice" (Sample.noon 2026 9 1)
                (Sample.noon 2026 10 2) "Developer" "Hooli" "Remote" "pending"
                "full-time"))
  /\ fst (createJobAction (<["createdAt" := VStr "yesterday"]> Imported.form)
            Imported.world_reading_iso)
     = Ok None.
Proof. split; vm_compute; reflexivity. Qed.

(** The two cases of [updatedAt] on the imported table: an edit of the
    status refreshes it, an edit without a field leaves the row as it
    is. *)
Example update_refreshes_updatedAt :
  fst (updateJobAction "job-7" Imported.edit Imported.world)
  = Ok (Some (mkJob "job-7" "user_alice" (Sample.noon 2026 9 20)
                (clock Imported.world) "Engineer" "Acme" "Remote" "accepted"
                "full-time"))
  /\ fst (updateJobAction "job-7" ∅ Imported.world) = Ok (Some Imported.padded).
Proof. split; vm_compute; reflexivity. Qed.

Lemma listing_is_scoped_witness :
  exists r,
    fst (getAllJobsAction (Some "%") None (Some 1) (Some (-2)) Sample.world) = Ok r
    /\ (forall j, In j (jobs r) ->
          In j (rows Sample.world) /\ clerkId j = "user_alice"
          /\ passes_filter "user_alice" (Some "%") None j = true)
    /\ Z.of_nat (length (jobs r)) <= 2
    /\ rows (snd (getAllJobsAction (Some "%") None (Some 1) (Some (-2)) Sample.world))
       = rows Sample.world.
Proof.
  apply (listing_is_scoped "user_alice" (Some "%") None (Some 1) (Some (-2)) Sample.world).
  exact sample_signed_in.
Defined.

(** A search term is a LIKE pattern: "%" finds every record of the caller,
    "_n" finds a position or company with a character before an n, and a
    backslash makes the next character literal. *)
Example search_term_is_a_pattern :
  fst (getAllJobsAction (Some "%") None None None Sample.world)
  = Ok (mkJobsPage [Sample.tester; Sample.engineer; Sample.archived] 3 1 (Int 1))
  /\ fst (getAllJobsAction (Some "E_g") None None None Sample.world)
     = Ok (mkJobsPage [Sample.engineer] 1 1 (Int 1))
  /\ fst (getAllJobsAction (Some "E\_g") None None None Sample.world)
     = Ok (mkJobsPage [] 0 1 (Int 0)).
Proof. repeat split; vm_compute; reflexivity. Qed.

Lemma status_filter_is_exact_witness :
  (forall j, In j [Sample.engineer] -> status j = "pending")
  /\ getAllJobsAction None (Some "all") None None Sample.world
     = getAllJobsAction None None None None Sample.world
  /\ getAllJobsAction None (Some "") None None Sample.world
     = getAllJobsAction None None None None Sample.world.
Proof.
  apply (status_filter_is_exact "user_alice" "pending" None None None Sample.world
           (mkJobsPage [Sample.engineer] 1 1 (Int 1))).
  - exact sample_signed_in.
  - reflexivity.
  - discriminate.
  - vm_compute. reflexivity.
Defined.

Lemma sample_instants :
  distinct_instants
    (filter (fun j => passes_filter "user_alice" None None j = true)
       (rows Sample.world)).
Proof.
  unfold distinct_instants. vm_compute.
  repeat (apply NoDup_cons; split;
          [rewrite ?elem_of_cons, elem_of_nil; intuition discriminate|]).
  apply NoDup_nil_2.
Defined.

Lemma pages_cover_the_listing_witness :
  exists newest_first,
    newest_first ≡ₚ [Sample.engineer; Sample.tester; Sample.archived]
    /\ StronglySorted (ordered desc) newest_first
    /\ concat (map (fun k => listed (fst (getAllJobsAction None None
                                            (Some (Z.of_nat k)) (Some (Z.of_nat 2))
                                            (set_ties [fun _ => Z.of_nat k]
                                               Sample.world))))
                 (seq 1 2))
       = newest_first.
Proof.
  pose proof (pages_cover_the_listing "user_alice" None None 2 2 Sample.world
                (fun k => set_ties [fun _ => Z.of_nat k] Sample.world)
                sample_signed_in) as H.
  cbv zeta in H. apply H.
  - intros k. split; [split; reflexivity|]. intros i _. discriminate.
  - lia.
  - apply safe_integer_small. reflexivity.
  - exact sample_instants.
  - vm_compute. lia.
Defined.

Lemma download_is_unpaged_listing_witness :
  exists all page,
    fst (getAllJobsForDownloadAction Sample.world) = Ok all
    /\ fst (getAllJobsAction None None (Some 1) (Some 10)
              (set_ties [fun j => - year (updatedAt j)] Sample.world)) = Ok page
    /\ jobs page ≡ₚ all
    /\ count page = length all
    /\ (distinct_instants
          (filter (fun j => clerkId j = "user_alice") (rows Sample.world)) ->
        jobs page = all).
Proof.
  pose proof (download_is_unpaged_listing "user_alice" Sample.world
                (set_ties [fun j => - year (updatedAt j)] Sample.world) 10
                sample_signed_in (sample_serves 1)) as H.
  cbv zeta in H. apply H.
  - split; reflexivity.
  - intros i _. discriminate.
  - lia.
  - apply safe_integer_small. reflexivity.
  - vm_compute. discriminate.
Defined.

Lemma stats_total_witness :
  exists (stats : gmap string nat) (a b c : nat),
    fst (getStatsAction Sample.world) = Ok stats
    /\ stats !! "pending" = Some a
    /\ stats !! "interview" = Some b
    /\ stats !! "declined" = Some c
    /\ (a + b + c)%nat
       = length (filter (fun j => clerkId j = "user_alice"
                                  /\ toLowerCase (status j) ∈ stats_keys)
                   (rows Sample.world))
    /\ (a + b + c
        <= length (filter (fun j => clerkId j = "user_alice") (rows Sample.world)))%nat.
Proof.
  apply (stats_total "user_alice" Sample.world).
  - exact sample_signed_in.
  - exact (sample_serves 1).
Defined.

Lemma chart_totals_witness :
  exists entries,
    fst (getChartsDataAction Sample.world) = Ok entries
    /\ (length entries <= 7)%nat
    /\ Forall (fun e => (1 <= e.2)%nat) entries
    /\ list_sum (map snd entries)
       = length (filter (in_trend_window "user_alice" (clock Sample.world))
                   (rows Sample.world)).
Proof.
  apply (chart_totals "user_alice" Sample.world).
  - exact sample_signed_in.
  - exact (sample_serves 1).
  - vm_compute. split; discriminate.
  - repeat constructor; vm_compute; discriminate.
Defined.

Lemma fix_status_repairs_witness :
  exists s',
    db_fix_status.main Imported.world = (Ok 2%nat, s')
    /\ rows s' = map (fix_row (clock Imported.world)) (rows Imported.world)
    /\ map id (rows s') = map id (rows Imported.world)
    /\ map clerkId (rows s') = map clerkId (rows Imported.world)
    /\ db_fix_status.toFix (map (fun j => (id j, status j)) (rows s')) = [].
Proof.
  apply (fix_status_repairs Imported.world).
  - reflexivity.
  - exact imported_key.
Defined.

Example repaired_statuses :
  map status (map (fix_row (clock Imported.world)) (rows Imported.world))
  = ["declined"; "pending"; "interview"].
Proof. vm_compute. reflexivity. Qed.

Lemma stats_after_repair_witness :
  exists s' n (stats : gmap string nat),
    db_fix_status.main Imported.world = (Ok n, s')
    /\ fst (getStatsAction s') = Ok stats
    /\ forall key, In key stats_keys ->
         stats !! key
         = Some (length (filter (fun j => clerkId j = "user_alice"
                                          /\ db_fix_status.normalizeStatus (status j)
                                             = Some key) (rows Imported.world))).
Proof.
  apply (stats_after_repair "user_alice" Imported.world).
  - reflexivity.
  - exact imported_key.
  - exact imported_signed_in.
Defined.

